(** * Vaultittech YouTube title automator: a shallow embedding of [index.js]

    The class [VaultittechAutomator] is embedded as functions over an
    explicit machine state.  Every interaction with the outside (the clock,
    [Math.random], the three HTTP endpoints reached through axios, the
    pause between two videos) is answered by a [World], a family of reply
    streams indexed by an interaction counter, and every request is appended
    with its reply to a trace.  The program is deterministic, so the request
    sent at a given tick is fixed by the earlier replies: quantifying over
    all worlds covers every server behaviour.

    Conventions.
    - A JavaScript string is a [string]; one character stands for one UTF-16
      code unit, which is what [length] and [substring] count.
    - Integral JavaScript numbers are [Z] (exact below 2^53); the two ratios
      are exact rationals, [None] standing for a non-finite number.
    - [console.log] and [console.error] have no effect on the state and are
      left out.
    - An [async] method is a computation in the monad [M]; a promise that
      never settles is the outcome [Pending]. *)

From Stdlib Require Import ZArith QArith List String Ascii Lia Bool.
From stdpp Require Import gmap strings list.

Local Open Scope string_scope.
Local Open Scope Z_scope.

(** ** JavaScript values *)

#[local] Set Warnings "-register-all".

Inductive jsval : Type :=
| JUndefined
| JNull
| JBool (b : bool)
| JNum (z : Z)
| JStr (s : string)
| JArr (elems : list jsval)
| JObj (fields : list (string * jsval)).

(** Property read [o.k]: an absent property reads as [undefined]. *)
Definition prop (o : gmap string jsval) (k : string) : jsval :=
  match o !! k with
  | Some v => v
  | None => JUndefined
  end.

(** [s !== v] and [s === v] for a string [s]. *)
Definition strict_eq_string (s : string) (v : jsval) : bool :=
  match v with
  | JStr t => String.eqb s t
  | _ => false
  end.

(** [String.prototype.substring(start, end)]: the two indices are swapped
    when out of order and clamped to the length. *)
Definition js_substring (s : string) (indexStart indexEnd : nat) : string :=
  let lo := Nat.min indexStart indexEnd in
  let hi := Nat.max indexStart indexEnd in
  String.substring lo (hi - lo) s.

(** The result of [parseInt] on a statistics field, and of a division. *)
Inductive number : Type :=
| NaN
| Num (z : Z).

(** A statistics field of the videos resource is an unsigned integer
    rendered as a decimal string; the property may be absent (hidden likes,
    disabled comments). *)
Definition count_field : Type := option N.

(** [parseInt(f)]: the digits read as a number, [NaN] for [undefined]. *)
Definition parseInt (f : count_field) : number :=
  match f with
  | Some n => Num (Z.of_N n)
  | None => NaN
  end.

(** [x || 0] on numbers: [NaN] and [0] are falsy. *)
Definition or_zero (x : number) : Z :=
  match x with
  | Num z => z
  | NaN => 0
  end.

(** [f > 0] with [f] a statistics field: the decimal string is converted to
    its number, [undefined] to [NaN], and [NaN > 0] is false. *)
Definition gt_zero (f : count_field) : bool :=
  match f with
  | Some n => (0 <? n)%N
  | None => false
  end.

(** [a / b] with [a] an integer: [None] is a non-finite result ([NaN] or an
    infinity). *)
Definition js_div (a : Z) (b : number) : option Q :=
  match b with
  | Num z => if z =? 0 then None else Some (inject_Z a / inject_Z z)%Q
  | NaN => None
  end.

(** A value of [Math.random()]: a double in [0, 1), that is
    [mantissa / 2^53]. *)
Record unit_float : Type := {
  mantissa : N;
  mantissa_lt : (mantissa <? 2 ^ 53)%N = true
}.

(** The nearest integer with at most 53 significant bits, ties to the even
    significand: the rounding of a double operation whose exact result is
    [x] times a power of two. *)
Definition round_to_53_bits (x : N) : N :=
  if (N.size x <=? 53)%N then x
  else
    let shift := (N.size x - 53)%N in
    let q := (x / 2 ^ shift)%N in
    let rem := (x mod 2 ^ shift)%N in
    let half := (2 ^ (shift - 1))%N in
    let q' := if (half <? rem)%N || ((rem =? half)%N && N.odd q)
              then (q + 1)%N else q in
    (q' * 2 ^ shift)%N.

(** [Math.floor(r * n)]: the product is the double nearest to
    [mantissa * n / 2^53], and the floor is taken of that double. *)
Definition floor_mul (r : unit_float) (n : nat) : nat :=
  N.to_nat (round_to_53_bits (mantissa r * N.of_nat n) / 2 ^ 53).

(** ** Errors, requests and replies *)

Record http_response : Type := {
  status : Z;
  data : jsval
}.

(** An [Error]: axios attaches [response] when the server answered. *)
Record js_error : Type := {
  message : string;
  response : option http_response
}.

Definition Error (msg : string) : js_error :=
  {| message := msg; response := None |}.

(** [error.response?.status === code]. *)
Definition has_status (error : js_error) (code : Z) : bool :=
  match response error with
  | Some r => status r =? code
  | None => false
  end.

Record token_data : Type := {
  access_token : string;
  expires_in : Z
}.

Record statistics_t : Type := {
  viewCount : count_field;
  likeCount : count_field;
  commentCount : count_field
}.

Record video_item : Type := {
  statistics : statistics_t;
  snippet : gmap string jsval
}.

(** [response.data] of the videos read endpoint; [items] may be missing. *)
Record list_data : Type := {
  items : option (list video_item)
}.

(** The body handed to [axios.put]. *)
Record update_data : Type := {
  ud_id : string;
  ud_snippet : gmap string jsval
}.

Definition reply (A : Type) : Type := (js_error + A)%type.

Inductive event : Type :=
| EvTokenPost (client_id client_secret refresh_token : option string)
              (r : reply token_data)
| EvVideosGet (key : option string) (id part : string) (r : reply list_data)
| EvVideosPut (updateData : update_data) (authorization : string)
              (r : reply unit)
| EvTimeout (ms : Z).

(** The outside of the process.  Each stream is read at the current tick. *)
Record World : Type := {
  Date_now : nat -> Z;
  Math_random : nat -> unit_float;
  oauth_token : nat -> reply token_data;
  videos_list : nat -> reply list_data;
  videos_update : nat -> reply unit;
  toLocaleString : Z -> string;
  toISOString : Z -> string
}.

(** ** The automator's state *)

Record RunStats : Type := {
  updatesPerformed : Z;
  lastUpdate : option string;
  peakEngagement : Z
}.

Record Automator : Type := {
  youtubeApiKey : option string;
  clientId : option string;
  clientSecret : option string;
  refreshToken : option string;
  channelId : option string;
  accessToken : option string;
  accessTokenExpiry : option Z;
  stats : RunStats
}.

(** The constructor. *)
Definition new_Automator : Automator :=
  {| youtubeApiKey := None; clientId := None; clientSecret := None;
     refreshToken := None; channelId := None;
     accessToken := None; accessTokenExpiry := None;
     stats := {| updatesPerformed := 0; lastUpdate := None;
                 peakEngagement := 0 |} |}.

Record St : Type := {
  this : Automator;
  tick : nat;
  trace : list event
}.

Definition with_token (a : Automator) (tok : option string) (exp : option Z)
  : Automator :=
  {| youtubeApiKey := youtubeApiKey a; clientId := clientId a;
     clientSecret := clientSecret a; refreshToken := refreshToken a;
     channelId := channelId a;
     accessToken := tok; accessTokenExpiry := exp;
     stats := stats a |}.

Definition with_stats (a : Automator) (rs : RunStats) : Automator :=
  {| youtubeApiKey := youtubeApiKey a; clientId := clientId a;
     clientSecret := clientSecret a; refreshToken := refreshToken a;
     channelId := channelId a;
     accessToken := accessToken a; accessTokenExpiry := accessTokenExpiry a;
     stats := rs |}.

(** ** The monad of asynchronous computations *)

Inductive outcome (A : Type) : Type :=
| Ret (a : A)
| Throw (e : js_error)
| Pending.

Arguments Ret {A} a.
Arguments Throw {A} e.
Arguments Pending {A}.

Definition M (A : Type) : Type := St -> outcome A * St.

Definition ret {A} (a : A) : M A := fun s => (Ret a, s).

Definition throw {A} (e : js_error) : M A := fun s => (Throw e, s).

Definition pending {A} : M A := fun s => (Pending, s).

Definition bind {A B} (m : M A) (k : A -> M B) : M B :=
  fun s =>
    match m s with
    | (Ret a, s') => k a s'
    | (Throw e, s') => (Throw e, s')
    | (Pending, s') => (Pending, s')
    end.

(** [try { m } catch (error) { h error }]. *)
Definition try_catch {A} (m : M A) (h : js_error -> M A) : M A :=
  fun s =>
    match m s with
    | (Throw e, s') => h e s'
    | r => r
    end.

Declare Scope js_scope.
Delimit Scope js_scope with js.
Notation "x <- m ;; k" := (bind m (fun x => k))
  (at level 100, m at next level, right associativity) : js_scope.
Notation "m ;;; k" := (bind m (fun _ => k))
  (at level 100, right associativity) : js_scope.
Local Open Scope js_scope.

Definition get_this : M Automator := fun s => (Ret (this s), s).

Definition set_this (a : Automator) : M unit :=
  fun s => (Ret tt, {| this := a; tick := tick s; trace := trace s |}).

(** One interaction with the world: the tick advances. *)
Definition advance (s : St) : St :=
  {| this := this s; tick := S (tick s); trace := trace s |}.

(** A request: the tick advances and the request is logged with its reply. *)
Definition interact (s : St) (ev : event) : St :=
  {| this := this s; tick := S (tick s); trace := (trace s ++ [ev])%list |}.

Definition of_reply {A} (r : reply A) : outcome A :=
  match r with
  | inl e => Throw e
  | inr a => Ret a
  end.

(** ** The methods of [VaultittechAutomator] *)

Section Methods.

Variable w : World.

(** [Date.now()]. *)
Definition now : M Z :=
  fun s => (Ret (Date_now w (tick s)), advance s).

(** [Math.random()]. *)
Definition random : M unit_float :=
  fun s => (Ret (Math_random w (tick s)), advance s).

(** [axios.post('https://oauth2.googleapis.com/token', {...})]. *)
Definition axios_post_token (client_id client_secret refresh_token : option string)
  : M token_data :=
  fun s =>
    let r := oauth_token w (tick s) in
    (of_reply r,
     interact s (EvTokenPost client_id client_secret refresh_token r)).

(** [axios.get('https://www.googleapis.com/youtube/v3/videos', {params})]. *)
Definition axios_get_videos (key : option string) (id part : string)
  : M list_data :=
  fun s =>
    let r := videos_list w (tick s) in
    (of_reply r, interact s (EvVideosGet key id part r)).

(** [axios.put('https://www.googleapis.com/youtube/v3/videos', updateData,
    {params: {part: 'snippet'}, headers})]. *)
Definition axios_put_videos (updateData : update_data) (authorization : string)
  : M unit :=
  fun s =>
    let r := videos_update w (tick s) in
    (of_reply r, interact s (EvVideosPut updateData authorization r)).

(** [new Promise(resolve => setTimeout(resolve, ms))]. *)
Definition timeout (ms : Z) : M unit :=
  fun s =>
    (Ret tt,
     {| this := this s; tick := tick s; trace := (trace s ++ [EvTimeout ms])%list |}).

(** [!this.accessToken]: [null] and the empty string are falsy. *)
Definition falsy_string (x : option string) : bool :=
  match x with
  | None => true
  | Some t => String.eqb t ""
  end.

(** [!this.accessTokenExpiry]: [null] and [0] are falsy. *)
Definition falsy_number (x : option Z) : bool :=
  match x with
  | None => true
  | Some z => z =? 0
  end.

Definition refreshAccessToken : M unit :=
  try_catch
    (a <- get_this ;;
     response <- axios_post_token (clientId a) (clientSecret a) (refreshToken a) ;;
     t <- now ;;
     a' <- get_this ;;
     set_this (with_token a' (Some (access_token response))
                          (Some (t + expires_in response * 1000))))
    (fun error => throw error).

(** The condition of the [if] in [ensureValidAccessToken]. *)
Definition needs_refresh (a : Automator) (t : Z) : bool :=
  falsy_string (accessToken a) || falsy_number (accessTokenExpiry a)
  || match accessTokenExpiry a with
     | Some expiry => expiry - t <? 300000
     | None => 0 - t <? 300000
     end.

Definition ensureValidAccessToken : M unit :=
  t <- now ;;
  a <- get_this ;;
  if needs_refresh a t then refreshAccessToken else ret tt.

Record VideoStats : Type := {
  views : Z;
  likes : Z;
  comments : Z;
  currentTitle : jsval;
  publishedAt : jsval;
  likeRatio : option Q;
  commentRatio : option Q
}.

(** The object literal [stats] built from [items[0]]. *)
Definition video_stats (video : video_item) : VideoStats :=
  {| views := or_zero (parseInt (viewCount (statistics video)));
     likes := or_zero (parseInt (likeCount (statistics video)));
     comments := or_zero (parseInt (commentCount (statistics video)));
     currentTitle := prop (snippet video) "title";
     publishedAt := prop (snippet video) "publishedAt";
     likeRatio :=
       if gt_zero (viewCount (statistics video))
       then js_div (or_zero (parseInt (likeCount (statistics video))))
                   (parseInt (viewCount (statistics video)))
       else Some 0%Q;
     commentRatio :=
       if gt_zero (viewCount (statistics video))
       then js_div (or_zero (parseInt (commentCount (statistics video))))
                   (parseInt (viewCount (statistics video)))
       else Some 0%Q |}.

Definition with_peak (rs : RunStats) (peak : Z) : RunStats :=
  {| updatesPerformed := updatesPerformed rs;
     lastUpdate := lastUpdate rs;
     peakEngagement := peak |}.

Definition getVideoStats (videoId : string) : M VideoStats :=
  try_catch
    (a <- get_this ;;
     response <- axios_get_videos (youtubeApiKey a) videoId "statistics,snippet" ;;
     match items response with
     | Some (video :: _) =>
         let st := video_stats video in
         let totalEngagement := likes st + comments st in
         a' <- get_this ;;
         (if peakEngagement (stats a') <? totalEngagement
          then set_this (with_stats a' (with_peak (stats a') totalEngagement))
          else ret tt) ;;;
         ret st
     | _ => throw (Error ("Video with ID " +:+ videoId +:+ " not found"))
     end)
    (fun error => throw error).

(** The three phrasings under [templates.detailed]. *)
Definition detailed (st : VideoStats) (originalTitle : string) : list string :=
  let views := toLocaleString w (views st) in
  let likes := toLocaleString w (likes st) in
  let comments := toLocaleString w (comments st) in
  [ "This video now has " +:+ views +:+ " views, " +:+ likes +:+ " likes, and "
      +:+ comments +:+ " comments - " +:+ originalTitle;
    originalTitle +:+ " | This video now has " +:+ views +:+ " views, "
      +:+ likes +:+ " likes, " +:+ comments +:+ " comments";
    "This video now has " +:+ views +:+ " views, " +:+ likes +:+ " likes, "
      +:+ comments +:+ " comments: " +:+ originalTitle ].

(** Reading [.length] of [undefined]. *)
Definition TypeError_length : js_error :=
  Error "Cannot read properties of undefined (reading 'length')".

Definition generateDynamicTitle (st : VideoStats) (originalTitle strategy : string)
  : M string :=
  let categoryTemplates := detailed st originalTitle in
  r <- random ;;
  match categoryTemplates !! floor_mul r (length categoryTemplates) with
  | Some randomTemplate =>
      ret (if (String.length randomTemplate <=? 100)%nat then randomTemplate
           else js_substring randomTemplate 0 97 +:+ "...")
  | None => throw TypeError_length
  end.

(** The template literal [`Bearer ${this.accessToken}`]. *)
Definition bearer (tok : option string) : string :=
  "Bearer " +:+ match tok with Some t => t | None => "null" end.

(** The object literal [{...snippet, title: newTitle,
    categoryId: snippet.categoryId}]. *)
Definition merge_title (snippet : gmap string jsval) (newTitle : string)
  : gmap string jsval :=
  <["categoryId" := prop snippet "categoryId"]> (<["title" := JStr newTitle]> snippet).

(** The body of the [try] block of [updateVideoTitle]. *)
Definition updateVideoTitle_try (videoId newTitle : string) (currentStats : VideoStats)
  : M bool :=
  a <- get_this ;;
  currentVideo <- axios_get_videos (youtubeApiKey a) videoId "snippet" ;;
  match items currentVideo with
  | Some (item :: _) =>
      let snippet := snippet item in
      let updateData :=
        {| ud_id := videoId; ud_snippet := merge_title snippet newTitle |} in
      a1 <- get_this ;;
      axios_put_videos updateData (bearer (accessToken a1)) ;;;
      a2 <- get_this ;;
      set_this (with_stats a2
        {| updatesPerformed := updatesPerformed (stats a2) + 1;
           lastUpdate := lastUpdate (stats a2);
           peakEngagement := peakEngagement (stats a2) |}) ;;;
      t <- now ;;
      a3 <- get_this ;;
      set_this (with_stats a3
        {| updatesPerformed := updatesPerformed (stats a3);
           lastUpdate := Some (toISOString w t);
           peakEngagement := peakEngagement (stats a3) |}) ;;;
      ret true
  | _ => throw (Error ("Video " +:+ videoId +:+ " not found for title update"))
  end.

(** The recursion of the [catch] block has no bound in the source; [fuel]
    bounds the number of attempts the model follows. *)
Fixpoint updateVideoTitle (fuel : nat) (videoId newTitle : string)
    (currentStats : VideoStats) : M bool :=
  match fuel with
  | O => pending
  | S fuel' =>
      ensureValidAccessToken ;;;
      try_catch
        (updateVideoTitle_try videoId newTitle currentStats)
        (fun error =>
           if has_status error 401
           then refreshAccessToken ;;;
                updateVideoTitle fuel' videoId newTitle currentStats
           else throw error)
  end.

Record VideoTask : Type := {
  videoId : string;
  originalTitle : string
}.

(** The object returned by [processVideo]: [{success: true, videoId,
    oldTitle, newTitle, stats}] or [{success: false, videoId, error}]. *)
Inductive ProcessResult : Type :=
| Succeeded (videoId : string) (oldTitle : jsval) (newTitle : string)
            (stats : VideoStats)
| Failed (videoId : string) (error : string).

Definition success (r : ProcessResult) : bool :=
  match r with
  | Succeeded _ _ _ _ => true
  | Failed _ _ => false
  end.

Definition result_videoId (r : ProcessResult) : string :=
  match r with
  | Succeeded v _ _ _ => v
  | Failed v _ => v
  end.

(** The body of the [try] block of [processVideo]. *)
Definition processVideo_try (fuel : nat) (videoId originalTitle strategy : string)
  : M ProcessResult :=
  st <- getVideoStats videoId ;;
  newTitle <- generateDynamicTitle st originalTitle strategy ;;
  (if negb (strict_eq_string newTitle (currentTitle st))
   then updateVideoTitle fuel videoId newTitle st ;;; ret tt
   else ret tt) ;;;
  ret (Succeeded videoId (currentTitle st) newTitle st).

Definition processVideo (fuel : nat) (videoId originalTitle strategy : string)
  : M ProcessResult :=
  try_catch
    (processVideo_try fuel videoId originalTitle strategy)
    (fun error => ret (Failed videoId (message error))).

(** Destructuring [videos[i]] when it is [undefined]. *)
Definition TypeError_destructure : js_error :=
  Error "Cannot destructure property 'videoId' of 'videos[i]' as it is undefined.".

(** The [for] loop of [processMultipleVideos]: [i] is the loop index and
    [n] the number of iterations left, [videos.length - i]. *)
Fixpoint processMultipleVideos_for (fuel : nat) (videos : list VideoTask)
    (strategy : string) (n i : nat) (results : list ProcessResult)
  : M (list ProcessResult) :=
  match n with
  | O => ret results
  | S n' =>
      match videos !! i with
      | Some task =>
          result <- processVideo fuel (videoId task) (originalTitle task) strategy ;;
          let results := (results ++ [result])%list in
          (if Z.of_nat i <? Z.of_nat (length videos) - 1
           then timeout 2000
           else ret tt) ;;;
          processMultipleVideos_for fuel videos strategy n' (S i) results
      | None => throw TypeError_destructure
      end
  end.

Definition processMultipleVideos (fuel : nat) (videos : list VideoTask)
    (strategy : string) : M (list ProcessResult) :=
  processMultipleVideos_for fuel videos strategy (length videos) 0 [].

End Methods.

(** ** A concrete locale and concrete worlds *)

(** Groups of three digits, from the least significant one; [fuel] bounds
    the number of groups. *)
Fixpoint group_digits (fuel : nat) (n : N) : list N :=
  match fuel with
  | O => []
  | S fuel' =>
      if (n <? 1000)%N then [n]
      else (n mod 1000)%N :: group_digits fuel' (n / 1000)%N
  end.

Definition digit (d : N) : string :=
  String (ascii_of_N (48 + d)) "".

(** A group after the first one is padded to three digits. *)
Definition pad3 (g : N) : string :=
  digit (g / 100) +:+ digit (g / 10 mod 10) +:+ digit (g mod 10).

Definition unpadded (g : N) : string :=
  if (g <? 10)%N then digit g
  else if (g <? 100)%N then digit (g / 10) +:+ digit (g mod 10)
  else pad3 g.

(** [toLocaleString()] in the en-US locale on a non-negative integer:
    [1000] is rendered as 1,000. *)
Definition en_US (z : Z) : string :=
  match rev (group_digits 64 (Z.to_N z)) with
  | [] => "0"
  | g :: gs => fold_left (fun acc h => acc +:+ "," +:+ pad3 h) gs (unpadded g)
  end.

Definition fixed_random (m : N) (H : (m <? 2 ^ 53)%N = true) : unit_float :=
  {| mantissa := m; mantissa_lt := H |}.

Definition unauthorized : js_error :=
  {| message := "Request failed with status code 401";
     response := Some {| status := 401; data := JStr "Invalid Credentials" |} |}.

Definition forbidden : js_error :=
  {| message := "Request failed with status code 403";
     response := Some {| status := 403; data := JStr "quotaExceeded" |} |}.

Definition demo_snippet : gmap string jsval :=
  <["title" := JStr "Demo"]>
  (<["publishedAt" := JStr "2024-01-01T00:00:00Z"]>
  (<["categoryId" := JStr "28"]>
  (<["description" := JStr "A demo"]> ∅))).

Definition demo_item : video_item :=
  {| statistics := {| viewCount := Some 1000%N; likeCount := Some 50%N;
                      commentCount := Some 10%N |};
     snippet := demo_snippet |}.

(** A platform that serves the demo video, grants a one-hour token on every
    refresh, and rejects the first [k] requests to the write endpoint made
    at ticks below [k401] with status 401. *)
Definition demo_world (k401 : nat) : World :=
  {| Date_now := fun t => 1700000000000 + Z.of_nat t;
     Math_random := fun _ => fixed_random 0 eq_refl;
     oauth_token := fun t =>
       inr {| access_token := "ya29.token"; expires_in := 3600 |};
     videos_list := fun _ => inr {| items := Some [demo_item] |};
     videos_update := fun t =>
       if (t <? k401)%nat then inl unauthorized else inr tt;
     toLocaleString := en_US;
     toISOString := fun _ => "2023-11-14T22:13:20.000Z" |}.

(** The same platform with a write endpoint that always answers 403. *)
Definition forbidden_world : World :=
  {| Date_now := Date_now (demo_world 0);
     Math_random := Math_random (demo_world 0);
     oauth_token := oauth_token (demo_world 0);
     videos_list := videos_list (demo_world 0);
     videos_update := fun _ => inl forbidden;
     toLocaleString := en_US;
     toISOString := toISOString (demo_world 0) |}.

Definition steady_title : string :=
  "This video now has 1,000 views, 50 likes, and 10 comments - Demo".

(** The same platform once the title has been rewritten: the video already
    carries the title the renderer produces. *)
Definition steady_world : World :=
  {| Date_now := Date_now (demo_world 0);
     Math_random := Math_random (demo_world 0);
     oauth_token := oauth_token (demo_world 0);
     videos_list := fun _ =>
       inr {| items := Some [ {| statistics := statistics demo_item;
                                 snippet := <["title" := JStr steady_title]>
                                              demo_snippet |} ] |};
     videos_update := videos_update (demo_world 0);
     toLocaleString := en_US;
     toISOString := toISOString (demo_world 0) |}.

Definition two_videos : list VideoTask :=
  [ {| videoId := "vidA"; originalTitle := "Demo" |};
    {| videoId := "vidB"; originalTitle := "Building Vaultittech: Real-Time Revenue Tracking" |} ].

Definition start (a : Automator) : St :=
  {| this := a; tick := 0; trace := [] |}.

Definition demo_stats : VideoStats :=
  {| views := 1000; likes := 50; comments := 10;
     currentTitle := JStr "Demo"; publishedAt := JStr "2024-01-01T00:00:00Z";
     likeRatio := Some (50 # 1000)%Q; commentRatio := Some (10 # 1000)%Q |}.

(** Counting the requests of a trace. *)
Definition is_put (e : event) : bool :=
  match e with EvVideosPut _ _ _ => true | _ => false end.

Definition is_token_post (e : event) : bool :=
  match e with EvTokenPost _ _ _ _ => true | _ => false end.

Definition is_timeout (e : event) : bool :=
  match e with EvTimeout _ => true | _ => false end.

Definition count (p : event -> bool) (tr : list event) : nat :=
  length (List.filter p tr).

(** The replies the write endpoint gave, in order. *)
Definition put_replies (tr : list event) : list (reply unit) :=
  omap (fun e => match e with EvVideosPut _ _ r => Some r | _ => None end) tr.

(** A token is held when both fields of the token manager are truthy. *)
Definition token_held (a : Automator) : Prop :=
  exists tok expiry,
    accessToken a = Some tok /\ tok <> "" /\
    accessTokenExpiry a = Some expiry /\ expiry <> 0.

(** No token is held, or the held one expires in less than 300000 ms. *)
Definition stale (a : Automator) (t : Z) : Prop :=
  ~ token_held a \/
  exists expiry, accessTokenExpiry a = Some expiry /\ expiry - t < 300000.

(** ** The states the methods reach *)

Section Reached.

Variable w : World.

Definition token_request (s : St) (r : reply token_data) : event :=
  EvTokenPost (clientId (this s)) (clientSecret (this s)) (refreshToken (this s)) r.

(** After a successful refresh started in [s]. *)
Definition refreshed (s : St) (d : token_data) : St :=
  {| this := with_token (this s) (Some (access_token d))
               (Some (Date_now w (S (tick s)) + expires_in d * 1000));
     tick := S (S (tick s));
     trace := (trace s ++ [token_request s (inr d)])%list |}.

(** After the peak has been compared with [total]. *)
Definition observed (s : St) (total : Z) : St :=
  if peakEngagement (stats (this s)) <? total
  then {| this := with_stats (this s) (with_peak (stats (this s)) total);
          tick := tick s; trace := trace s |}
  else s.

(** After a write has been acknowledged in [s]. *)
Definition written (s : St) : St :=
  {| this := with_stats (this s)
       {| updatesPerformed := updatesPerformed (stats (this s)) + 1;
          lastUpdate := Some (toISOString w (Date_now w (tick s)));
          peakEngagement := peakEngagement (stats (this s)) |};
     tick := S (tick s);
     trace := trace s |}.

Definition stats_request (s : St) (videoId : string) : event :=
  EvVideosGet (youtubeApiKey (this s)) videoId "statistics,snippet"
              (videos_list w (tick s)).

Definition snippet_request (s : St) (videoId : string) : event :=
  EvVideosGet (youtubeApiKey (this s)) videoId "snippet" (videos_list w (tick s)).

Definition write_request (s : St) (videoId newTitle : string) (item : video_item)
  : event :=
  EvVideosPut {| ud_id := videoId; ud_snippet := merge_title (snippet item) newTitle |}
              (bearer (accessToken (this s))) (videos_update w (tick s)).

(** The template picked at the current tick. *)
Definition chosen (st : VideoStats) (originalTitle : string) (s : St)
  : option string :=
  detailed w st originalTitle
    !! floor_mul (Math_random w (tick s)) (length (detailed w st originalTitle)).

End Reached.

(** After the pause between two videos. *)
Definition paused (s : St) : St :=
  {| this := this s; tick := tick s;
     trace := (trace s ++ [EvTimeout 2000])%list |}.

(** The replies of the videos endpoints carry no status 401 from tick [T]
    on: every authentication failure happens before [T]. *)
Definition auth_settles (w : World) (T : nat) : Prop :=
  forall t e, (T <= t)%nat ->
    videos_list w t = inl e \/ videos_update w t = inl e ->
    has_status e 401 = false.

(** The projection of a trace on the statistics reads and the pauses. *)
Definition schedule_of (e : event) : option (string + Z) :=
  match e with
  | EvVideosGet _ id part _ =>
      if String.eqb part "statistics,snippet" then Some (inl id) else None
  | EvTimeout ms => Some (inr ms)
  | _ => None
  end.

Definition schedule (tr : list event) : list (string + Z) :=
  omap schedule_of tr.

(** One statistics read per video, a pause of [ms] between two of them. *)
Fixpoint paced (ms : Z) (ids : list string) : list (string + Z) :=
  match ids with
  | [] => []
  | [id] => [inl id]
  | id :: rest => inl id :: inr ms :: paced ms rest
  end.

(** Whose turn it is.  A statistics read opens the turn of its video, a pause
    closes the turn; a snippet read or a write is in turn when it names the
    video whose turn it is.  Token requests name no video. *)
Definition turn_step (cur : option string) (e : event) : option (option string) :=
  match e with
  | EvTokenPost _ _ _ _ => Some cur
  | EvVideosGet _ id part _ =>
      if String.eqb part "statistics,snippet" then Some (Some id)
      else if decide (cur = Some id) then Some cur else None
  | EvVideosPut updateData _ _ =>
      if decide (cur = Some (ud_id updateData)) then Some cur else None
  | EvTimeout _ => Some None
  end.

(** [turns tr cur] follows the turns along [tr] from [cur]; [None] when some
    request is out of turn. *)
Fixpoint turns (tr : list event) (cur : option string) : option (option string) :=
  match tr with
  | [] => Some cur
  | e :: tr' =>
      match turn_step cur e with
      | Some cur' => turns tr' cur'
      | None => None
      end
  end.


Definition is_pause (x : string + Z) : bool :=
  match x with inr _ => true | inl _ => false end.

(** [silent s s']: between [s] and [s'] no statistics read and no pause was
    logged, the clock of interactions did not go back, and the peak is the
    same. *)
Definition silent (s s' : St) : Prop :=
  schedule (trace s') = schedule (trace s) /\
  (tick s <= tick s')%nat /\
  peakEngagement (stats (this s')) = peakEngagement (stats (this s)).

(** The last two requests of a trace are the re-fetch of the snippet of
    [videoId] and the acknowledged write of that snippet with only its title
    replaced by [newTitle]. *)
Definition ends_with_merged_write (tr : list event) (videoId newTitle : string)
  : Prop :=
  exists pre key d item rest auth,
    tr = (pre ++ [EvVideosGet key videoId "snippet" (inr d);
                  EvVideosPut {| ud_id := videoId;
                                 ud_snippet := merge_title (snippet item) newTitle |}
                              auth (inr tt)])%list /\
    items d = Some (item :: rest).

(** ** Start-up: environment, configuration and report *)

(** [process.env] maps variable names to strings; an unset variable reads as
    [undefined].  [process.exit] ends the start-up. *)
Inductive startup (A : Type) : Type :=
| Running (a : A)
| Exited (code : Z).

Arguments Running {A} a.
Arguments Exited {A} code.

Definition required : list string :=
  ["YOUTUBE_API_KEY"; "OAUTH_CLIENT_ID"; "OAUTH_CLIENT_SECRET"; "REFRESH_TOKEN"].

(** [required.filter(key => !process.env[key])]. *)
Definition missing (env : gmap string string) : list string :=
  List.filter (fun key => falsy_string (env !! key)) required.

Definition validateEnvironment (env : gmap string string) : startup unit :=
  if (0 <? length (missing env))%nat then Exited 1 else Running tt.

Definition loadCredentials (env : gmap string string) (a : Automator)
  : startup Automator :=
  let a' :=
    {| youtubeApiKey := env !! "YOUTUBE_API_KEY";
       clientId := env !! "OAUTH_CLIENT_ID";
       clientSecret := env !! "OAUTH_CLIENT_SECRET";
       refreshToken := env !! "REFRESH_TOKEN";
       channelId := env !! "CHANNEL_ID";
       accessToken := accessToken a;
       accessTokenExpiry := accessTokenExpiry a;
       stats := stats a |} in
  match validateEnvironment env with
  | Exited code => Exited code
  | Running _ => Running a'
  end.

(** [x || d] on an environment variable: unset and empty are falsy. *)
Definition or_default (x : option string) (d : string) : string :=
  match x with
  | Some v => if String.eqb v "" then d else v
  | None => d
  end.

(** [config.videos]. *)
Definition config_videos (env : gmap string string) : list VideoTask :=
  [ {| videoId := or_default (env !! "VIDEO_ID") "YOUR_VIDEO_ID_HERE";
       originalTitle :=
         or_default (env !! "ORIGINAL_TITLE")
           "Building Vaultittech: Real-Time Revenue Tracking" |} ].

(** The object returned by [getPerformanceReport]. *)
Record PerformanceReport : Type := {
  totalUpdates : Z;
  reportedLastUpdate : option string;
  reportedPeakEngagement : Z;
  uptime : Q;
  nextUpdate : string
}.

(** What [getPerformanceReport] asks of the host besides the clock:
    [process.uptime()], read at the current tick, and the rendering of a
    date by [toLocaleString()]. *)
Record Host : Type := {
  process_uptime : nat -> Q;
  Date_toLocaleString : Z -> string
}.

Definition uptime_now (h : Host) : M Q :=
  fun s => (Ret (process_uptime h (tick s)), advance s).

Definition getPerformanceReport (w : World) (h : Host) : M PerformanceReport :=
  a <- get_this ;;
  up <- uptime_now h ;;
  t <- now w ;;
  ret {| totalUpdates := updatesPerformed (stats a);
         reportedLastUpdate := lastUpdate (stats a);
         reportedPeakEngagement := peakEngagement (stats a);
         uptime := up;
         nextUpdate := Date_toLocaleString h (t + 5 * 60 * 1000) |}.

(** The counts logged at the end of [processMultipleVideos]:
    [results.filter(r => r.success).length] and
    [results.filter(r => !r.success).length]. *)
Definition successful (results : list ProcessResult) : nat :=
  length (List.filter success results).

Definition failed (results : list ProcessResult) : nat :=
  length (List.filter (fun r => negb (success r)) results).

(** ** More observations on states and traces *)

(** A write the platform acknowledged. *)
Definition acked_put (e : event) : bool :=
  match e with
  | EvVideosPut _ _ (inr _) => true
  | _ => false
  end.

(** A result whose title differs from the one it replaced. *)
Definition title_changed (r : ProcessResult) : bool :=
  match r with
  | Succeeded _ oldTitle newTitle _ => negb (strict_eq_string newTitle oldTitle)
  | Failed _ _ => false
  end.

(** The number of results whose title differs from the one it replaced. *)
Definition changed_titles (results : list ProcessResult) : nat :=
  length (List.filter title_changed results).

(** The engagement a result reports is within [peak]. *)
Definition within_peak (peak : Z) (r : ProcessResult) : Prop :=
  match r with
  | Succeeded _ _ _ st => likes st + comments st <= peak
  | Failed _ _ => True
  end.

Definition same_credentials (a0 a : Automator) : Prop :=
  youtubeApiKey a = youtubeApiKey a0 /\ clientId a = clientId a0 /\
  clientSecret a = clientSecret a0 /\ refreshToken a = refreshToken a0 /\
  channelId a = channelId a0.

(** A request of [updateVideoTitle videoId newTitle] made with the
    credentials of [a0]. *)
Definition update_request (a0 : Automator) (videoId newTitle : string)
    (e : event) : Prop :=
  match e with
  | EvTokenPost client_id client_secret refresh_token _ =>
      client_id = clientId a0 /\ client_secret = clientSecret a0 /\
      refresh_token = refreshToken a0
  | EvVideosGet key id part _ =>
      key = youtubeApiKey a0 /\ id = videoId /\ part = "snippet"
  | EvVideosPut updateData _ _ =>
      ud_id updateData = videoId /\
      ud_snippet updateData !! "title" = Some (JStr newTitle)
  | EvTimeout _ => False
  end.

(** A request of a batch made with the credentials of [a0]: the secrets are
    those of [a0], a written title has at most 100 characters, a pause lasts
    2000 ms. *)
Definition batch_request (a0 : Automator) (e : event) : Prop :=
  match e with
  | EvTokenPost client_id client_secret refresh_token _ =>
      client_id = clientId a0 /\ client_secret = clientSecret a0 /\
      refresh_token = refreshToken a0
  | EvVideosGet key _ _ _ => key = youtubeApiKey a0
  | EvVideosPut updateData _ _ =>
      exists t, ud_snippet updateData !! "title" = Some (JStr t) /\
                (String.length t <= 100)%nat
  | EvTimeout ms => ms = 2000
  end.

(** A token request or a read carries the secrets of [a0]. *)
Definition carries_credentials (a0 : Automator) (e : event) : Prop :=
  match e with
  | EvTokenPost client_id client_secret refresh_token _ =>
      client_id = clientId a0 /\ client_secret = clientSecret a0 /\
      refresh_token = refreshToken a0
  | EvVideosGet key _ _ _ => key = youtubeApiKey a0
  | _ => True
  end.

(** A write carries a title of at most 100 characters. *)
Definition title_fits (e : event) : Prop :=
  match e with
  | EvVideosPut updateData _ _ =>
      exists t, ud_snippet updateData !! "title" = Some (JStr t) /\
                (String.length t <= 100)%nat
  | _ => True
  end.

(** Between [s] and [s'], started with the credentials of [a0]: the
    credentials are kept, the trace grows by requests satisfying [P], and
    the update counter grows by the number of acknowledged writes. *)
Definition evolves (a0 : Automator) (P : event -> Prop) (s s' : St) : Prop :=
  same_credentials a0 (this s) ->
  same_credentials a0 (this s') /\
  exists tr,
    trace s' = (trace s ++ tr)%list /\
    Forall P tr /\
    updatesPerformed (stats (this s'))
    = updatesPerformed (stats (this s)) + Z.of_nat (count acked_put tr).

(** [bearer_of tr tok] follows the access token along [tr] from [tok]: a
    granted token replaces it, and a write must carry it in its
    [Authorization] header; [None] when some write carries anything else. *)
Fixpoint bearer_of (tr : list event) (tok : option string)
  : option (option string) :=
  match tr with
  | [] => Some tok
  | EvTokenPost _ _ _ (inr d) :: tr' => bearer_of tr' (Some (access_token d))
  | EvVideosPut _ authorization _ :: tr' =>
      match tok with
      | Some t =>
          if String.eqb authorization ("Bearer " +:+ t) then bearer_of tr' tok
          else None
      | None => None
      end
  | _ :: tr' => bearer_of tr' tok
  end.

(** Between [s] and [s'] every write carried the token stored at the time. *)
Definition keeps_bearer (s s' : St) : Prop :=
  forall tok0,
    bearer_of (trace s) tok0 = Some (accessToken (this s)) ->
    bearer_of (trace s') tok0 = Some (accessToken (this s')).

(** [x] occurs in [t]. *)
Definition contains (t x : string) : Prop :=
  exists pre post, t = pre +:+ x +:+ post.

(** A platform whose token endpoint rejects the refresh token. *)
Definition locked_out_world : World :=
  {| Date_now := Date_now (demo_world 0);
     Math_random := Math_random (demo_world 0);
     oauth_token := fun _ => inl unauthorized;
     videos_list := videos_list (demo_world 0);
     videos_update := videos_update (demo_world 0);
     toLocaleString := en_US;
     toISOString := toISOString (demo_world 0) |}.

(** A platform that knows no video. *)
Definition empty_world : World :=
  {| Date_now := Date_now (demo_world 0);
     Math_random := Math_random (demo_world 0);
     oauth_token := oauth_token (demo_world 0);
     videos_list := fun _ => inr {| items := Some [] |};
     videos_update := videos_update (demo_world 0);
     toLocaleString := en_US;
     toISOString := toISOString (demo_world 0) |}.


(** A platform whose token endpoint grants the empty string. *)
Definition empty_token_world : World :=
  {| Date_now := Date_now (demo_world 0);
     Math_random := Math_random (demo_world 0);
     oauth_token := fun _ => inr {| access_token := ""; expires_in := 3600 |};
     videos_list := videos_list (demo_world 0);
     videos_update := videos_update (demo_world 0);
     toLocaleString := en_US;
     toISOString := toISOString (demo_world 0) |}.

(** The [Authorization] headers of the writes, in order. *)
Definition put_headers (tr : list event) : list string :=
  omap (fun e => match e with EvVideosPut _ a _ => Some a | _ => None end) tr.

Definition demo_env : gmap string string :=
  <["YOUTUBE_API_KEY" := "AIza-key"]>
  (<["OAUTH_CLIENT_ID" := "client.apps.googleusercontent.com"]>
  (<["OAUTH_CLIENT_SECRET" := "secret"]>
  (<["REFRESH_TOKEN" := "1//refresh"]> ∅))).

Definition demo_host : Host :=
  {| process_uptime := fun t => inject_Z (Z.of_nat t);
     Date_toLocaleString := fun _ => "11/14/2023, 10:18:20 PM" |}.

(** ** Run equations *)

Section Runs.

Variable w : World.

Lemma refreshAccessToken_run (s : St) :
  refreshAccessToken w s =
  match oauth_token w (tick s) with
  | inl e => (Throw e, interact s (token_request s (inl e)))
  | inr d => (Ret tt, refreshed w s d)
  end.
Proof.
  unfold refreshAccessToken, try_catch, bind, get_this, axios_post_token.
  destruct (oauth_token w (tick s)) as [e | d]; reflexivity.
Qed.

Lemma ensureValidAccessToken_run (s : St) :
  ensureValidAccessToken w s =
  if needs_refresh (this s) (Date_now w (tick s))
  then refreshAccessToken w (advance s)
  else (Ret tt, advance s).
Proof.
  unfold ensureValidAccessToken, bind, now, get_this. simpl.
  destruct (needs_refresh _ _); reflexivity.
Qed.

Lemma getVideoStats_run (videoId : string) (s : St) :
  getVideoStats w videoId s =
  let s1 := interact s (stats_request w s videoId) in
  match videos_list w (tick s) with
  | inl e => (Throw e, s1)
  | inr d =>
      match items d with
      | Some (video :: _) =>
          (Ret (video_stats video),
           observed s1 (likes (video_stats video) + comments (video_stats video)))
      | _ => (Throw (Error ("Video with ID " +:+ videoId +:+ " not found")), s1)
      end
  end.
Proof.
  unfold getVideoStats, try_catch, bind, get_this, axios_get_videos,
    stats_request, observed.
  destruct (videos_list w (tick s)) as [e | d]; simpl; [reflexivity |].
  destruct (items d) as [[| video rest] |]; simpl; try reflexivity.
  destruct (_ <? _); reflexivity.
Qed.

Lemma generateDynamicTitle_run (st : VideoStats) (originalTitle strategy : string)
    (s : St) :
  generateDynamicTitle w st originalTitle strategy s =
  match chosen w st originalTitle s with
  | Some randomTemplate =>
      (Ret (if (String.length randomTemplate <=? 100)%nat then randomTemplate
            else js_substring randomTemplate 0 97 +:+ "..."),
       advance s)
  | None => (Throw TypeError_length, advance s)
  end.
Proof.
  unfold generateDynamicTitle, chosen, bind, random. simpl.
  destruct (_ !! _); reflexivity.
Qed.

Lemma updateVideoTitle_try_run (videoId newTitle : string)
    (currentStats : VideoStats) (s : St) :
  updateVideoTitle_try w videoId newTitle currentStats s =
  let s1 := interact s (snippet_request w s videoId) in
  match videos_list w (tick s) with
  | inl e => (Throw e, s1)
  | inr d =>
      match items d with
      | Some (item :: _) =>
          let s2 := interact s1 (write_request w s1 videoId newTitle item) in
          match videos_update w (tick s1) with
          | inl e => (Throw e, s2)
          | inr _ => (Ret true, written w s2)
          end
      | _ => (Throw (Error ("Video " +:+ videoId +:+ " not found for title update")),
              s1)
      end
  end.
Proof.
  unfold updateVideoTitle_try, try_catch, bind, get_this, axios_get_videos,
    axios_put_videos, snippet_request, write_request, written.
  destruct (videos_list w (tick s)) as [e | d]; simpl; [reflexivity |].
  destruct (items d) as [[| item rest] |]; simpl; try reflexivity.
  destruct (videos_update w (S (tick s))) as [e | []]; reflexivity.
Qed.

Lemma updateVideoTitle_unfold (fuel : nat) (videoId newTitle : string)
    (currentStats : VideoStats) (s : St) :
  updateVideoTitle w (S fuel) videoId newTitle currentStats s =
  match ensureValidAccessToken w s with
  | (Ret _, s1) =>
      match updateVideoTitle_try w videoId newTitle currentStats s1 with
      | (Throw error, s2) =>
          if has_status error 401
          then match refreshAccessToken w s2 with
               | (Ret _, s3) =>
                   updateVideoTitle w fuel videoId newTitle currentStats s3
               | (Throw e, s3) => (Throw e, s3)
               | (Pending, s3) => (Pending, s3)
               end
          else (Throw error, s2)
      | r => r
      end
  | (Throw e, s1) => (Throw e, s1)
  | (Pending, s1) => (Pending, s1)
  end.
Proof.
  simpl. unfold bind at 1, try_catch.
  destruct (ensureValidAccessToken w s) as [[[] | e |] s1]; try reflexivity.
  destruct (updateVideoTitle_try w videoId newTitle currentStats s1)
    as [[b | error |] s2]; try reflexivity.
  destruct (has_status error 401); [| reflexivity].
  unfold bind. reflexivity.
Qed.

Lemma needs_refresh_stale (a : Automator) (t : Z) :
  needs_refresh a t = true <-> stale a t.
Proof.
  unfold needs_refresh, stale, token_held, falsy_string, falsy_number.
  destruct (accessToken a) as [tok |], (accessTokenExpiry a) as [expiry |];
    simpl; rewrite ?orb_true_r; simpl;
    try (split; [intros _ | done]; left;
         intros (? & ? & ? & ? & ? & ?); congruence).
  destruct (String.eqb_spec tok "") as [Htok | Htok];
    destruct (Z.eqb_spec expiry 0) as [Hexp | Hexp];
    destruct (Z.ltb_spec (expiry - t) 300000) as [Hlt | Hlt]; simpl;
    split; intros Hyp; try done;
    try (left; intros (? & ? & ? & ? & ? & ?); congruence);
    try (right; eauto; fail).
  destruct Hyp as [Hyp | (? & [= <-] & ?)]; [| lia].
  exfalso. apply Hyp. eauto 10.
Qed.

End Runs.

(** ** Strings and counting *)

Lemma length_app_string (a b : string) :
  String.length (a +:+ b) = (String.length a + String.length b)%nat.
Proof. induction a as [| c a IH]; simpl; [reflexivity | now rewrite IH]. Qed.

Lemma length_prefix (n : nat) (s : string) :
  (n <= String.length s)%nat -> String.length (String.substring 0 n s) = n.
Proof.
  revert s. induction n as [| n IH]; intros [| c s] Hn; simpl in *;
    try reflexivity; try lia.
  rewrite IH; [reflexivity | lia].
Qed.

Lemma round_to_53_bits_lt_3 (x : N) :
  (x <= 3 * 2 ^ 53 - 3)%N -> (round_to_53_bits x < 3 * 2 ^ 53)%N.
Proof.
  intros Hx. unfold round_to_53_bits.
  destruct (N.leb_spec (N.size x) 53) as [Hsize | Hsize]; [lia |].
  pose proof (N.size_gt x) as Hgt. pose proof (N.size_le x) as Hle.
  rewrite N.succ_double_spec in Hle.
  assert (Hbound : (N.size x < 56)%N).
  { apply (N.pow_lt_mono_r_iff 2); [lia |].
    change (2 ^ 56)%N with 72057594037927936%N.
    change (2 ^ 53)%N with 9007199254740992%N in Hx. lia. }
  assert (Hcases : N.size x = 54%N \/ N.size x = 55%N) by lia.
  cbv zeta. destruct Hcases as [Hs | Hs]; rewrite Hs in *.
  - change (54 - 53)%N with 1%N. change (2 ^ (1 - 1))%N with 1%N.
    change (2 ^ 1)%N with 2%N. change (2 ^ 54)%N with 18014398509481984%N in *.
    change (2 ^ 53)%N with 9007199254740992%N in *.
    pose proof (N.div_mod x 2 ltac:(lia)) as Hdm.
    pose proof (N.mod_lt x 2 ltac:(lia)) as Hm.
    remember (x / 2)%N as q eqn:Hq. remember (x mod 2)%N as rem eqn:Hrem.
    clear Hq Hrem.
    destruct ((1 <? rem)%N || ((rem =? 1)%N && N.odd q)); lia.
  - change (55 - 53)%N with 2%N. change (2 ^ (2 - 1))%N with 2%N.
    change (2 ^ 2)%N with 4%N. change (2 ^ 55)%N with 36028797018963968%N in *.
    change (2 ^ 53)%N with 9007199254740992%N in *.
    pose proof (N.div_mod x 4 ltac:(lia)) as Hdm.
    pose proof (N.mod_lt x 4 ltac:(lia)) as Hm.
    remember (x / 4)%N as q eqn:Hq. remember (x mod 4)%N as rem eqn:Hrem.
    clear Hq Hrem.
    destruct (N.ltb_spec 2 rem) as [Hr | Hr]; cbn [orb]; [lia |].
    destruct (N.eqb_spec rem 2) as [He | He]; cbn [andb]; [| lia].
    destruct (N.odd q); lia.
Qed.

(** The index drawn among three phrasings is 0, 1 or 2. *)
Lemma floor_mul_lt_3 (r : unit_float) : (floor_mul r 3 < 3)%nat.
Proof.
  unfold floor_mul.
  pose proof (mantissa_lt r) as Hm. apply N.ltb_lt in Hm.
  change (2 ^ 53)%N with 9007199254740992%N in Hm.
  assert (round_to_53_bits (mantissa r * N.of_nat 3) / 2 ^ 53 < 3)%N; [| lia].
  apply N.Div0.div_lt_upper_bound. rewrite N.mul_comm.
  apply round_to_53_bits_lt_3.
  change (2 ^ 53)%N with 9007199254740992%N. lia.
Qed.

Lemma count_app (p : event -> bool) (l1 l2 : list event) :
  count p (l1 ++ l2) = (count p l1 + count p l2)%nat.
Proof. unfold count. now rewrite List.filter_app, length_app. Qed.

Section Renderer.

Variable w : World.

Lemma chosen_detailed (st : VideoStats) (originalTitle : string) (s : St) :
  exists randomTemplate,
    chosen w st originalTitle s = Some randomTemplate /\
    In randomTemplate (detailed w st originalTitle).
Proof.
  unfold chosen.
  destruct (lookup_lt_is_Some_2 (detailed w st originalTitle)
              (floor_mul (Math_random w (tick s))
                 (length (detailed w st originalTitle)))) as [t Ht].
  - apply floor_mul_lt_3.
  - exists t. split; [exact Ht |].
    apply list_elem_of_In. eapply list_elem_of_lookup_2. exact Ht.
Qed.

(** C2. Whatever the statistics, the original title and the random draw, the
    title returned by [generateDynamicTitle] has at most 100 characters; when
    the chosen template has more than 100, the title is its first 97
    characters followed by three dots and has exactly 100 characters. *)
Theorem generateDynamicTitle_at_most_100 (st : VideoStats)
    (originalTitle strategy : string) (s : St) :
  exists randomTemplate title,
    chosen w st originalTitle s = Some randomTemplate /\
    In randomTemplate (detailed w st originalTitle) /\
    generateDynamicTitle w st originalTitle strategy s = (Ret title, advance s) /\
    (String.length title <= 100)%nat /\
    ((100 < String.length randomTemplate)%nat ->
       title = js_substring randomTemplate 0 97 +:+ "..." /\
       String.length (js_substring randomTemplate 0 97) = 97%nat /\
       String.length title = 100%nat) /\
    ((String.length randomTemplate <= 100)%nat -> title = randomTemplate).
Proof.
  destruct (chosen_detailed st originalTitle s) as (t & Ht & Hin).
  rewrite generateDynamicTitle_run, Ht.
  destruct (Nat.leb_spec (String.length t) 100) as [Hle | Hgt].
  - exists t, t. repeat split; try assumption; try lia.
  - exists t, (js_substring t 0 97 +:+ "...").
    assert (Hpre : String.length (js_substring t 0 97) = 97%nat).
    { unfold js_substring. simpl. apply length_prefix. lia. }
    repeat split; try assumption; try lia.
    + rewrite length_app_string, Hpre. simpl. lia.
    + rewrite length_app_string, Hpre. reflexivity.
Qed.

End Renderer.

Section Fetcher.

Variable w : World.

Lemma views_positive (video : video_item) :
  0 < views (video_stats video) <->
  gt_zero (viewCount (statistics video)) = true.
Proof.
  simpl. destruct (viewCount (statistics video)) as [n |]; simpl.
  - rewrite N.ltb_lt. lia.
  - split; [lia | discriminate].
Qed.

Lemma ratio_value (count : count_field) (n : N) :
  (0 < n)%N ->
  js_div (or_zero (parseInt count)) (parseInt (Some n)) =
  Some (inject_Z (or_zero (parseInt count)) / inject_Z (Z.of_N n))%Q.
Proof.
  intros Hn. simpl. destruct (Z.eqb_spec (Z.of_N n) 0); [lia | reflexivity].
Qed.

Lemma ratio_in_unit_interval (a b : Z) :
  0 <= a <= b -> 0 < b ->
  (0 <= inject_Z a / inject_Z b /\ inject_Z a / inject_Z b <= 1)%Q.
Proof.
  intros Ha Hb.
  assert (Hb' : (0 < inject_Z b)%Q) by (change 0%Q with (inject_Z 0); now rewrite <- Zlt_Qlt).
  split.
  - apply Qle_shift_div_l; [exact Hb' |].
    rewrite Qmult_0_l. change 0%Q with (inject_Z 0). rewrite <- Zle_Qle. lia.
  - apply Qle_shift_div_r; [exact Hb' |].
    rewrite Qmult_1_l. rewrite <- Zle_Qle. lia.
Qed.

(** C7. Every statistics record fetched by [getVideoStats] with [views > 0]
    has [likeRatio = likes / views] and [commentRatio = comments / views],
    each within [0, 1] when the count is between 0 and [views]; with
    [views = 0] both ratios are 0 and the fetch still returns the record. *)
Theorem getVideoStats_ratios (videoId : string) (s : St) (d : list_data)
    (video : video_item) (rest : list video_item) :
  videos_list w (tick s) = inr d ->
  items d = Some (video :: rest) ->
  exists st s',
    getVideoStats w videoId s = (Ret st, s') /\
    st = video_stats video /\
    (0 < views st ->
       likeRatio st = Some (inject_Z (likes st) / inject_Z (views st))%Q /\
       commentRatio st = Some (inject_Z (comments st) / inject_Z (views st))%Q /\
       (0 <= likes st <= views st ->
          (0 <= inject_Z (likes st) / inject_Z (views st) <= 1)%Q) /\
       (0 <= comments st <= views st ->
          (0 <= inject_Z (comments st) / inject_Z (views st) <= 1)%Q)) /\
    (views st = 0 -> likeRatio st = Some 0%Q /\ commentRatio st = Some 0%Q).
Proof.
  intros Hd Hitems. rewrite getVideoStats_run, Hd, Hitems. cbv zeta.
  eexists _, _. split; [reflexivity |]. split; [reflexivity |]. split.
  - intros Hv. pose proof (proj1 (views_positive video) Hv) as Hgt.
    simpl in *. rewrite Hgt.
    destruct (viewCount (statistics video)) as [n |]; [| discriminate].
    apply N.ltb_lt in Hgt.
    rewrite !ratio_value by exact Hgt.
    repeat split; intros;
      apply (ratio_in_unit_interval _ (Z.of_N n)); simpl in *; lia.
  - intros Hv.
    assert (Hgt : gt_zero (viewCount (statistics video)) = false).
    { destruct (gt_zero _) eqn:E; [| reflexivity].
      apply views_positive in E. lia. }
    simpl. rewrite Hgt. split; reflexivity.
Qed.

End Fetcher.

Section TokenManager.

Variable w : World.

(** C6. [ensureValidAccessToken] requests a refresh exactly when no token is
    held or the held token expires in less than 300000 ms: then one request
    goes to the token endpoint; a successful reply stores its access token
    with expiry [Date.now() + expires_in * 1000], a failed one is thrown as
    received, with its payload and message, and leaves the token as it was.
    Otherwise nothing is requested and the token is kept. *)
Theorem ensureValidAccessToken_policy (s : St) :
  let t := Date_now w (tick s) in
  let s0 := advance s in
  let r := ensureValidAccessToken w s in
  (needs_refresh (this s) t = true <-> stale (this s) t) /\
  (stale (this s) t ->
     trace r.2 = (trace s ++ [token_request s (oauth_token w (tick s0))])%list /\
     count is_token_post (trace r.2) = S (count is_token_post (trace s)) /\
     match oauth_token w (tick s0) with
     | inr d =>
         r.1 = Ret tt /\
         accessToken (this r.2) = Some (access_token d) /\
         accessTokenExpiry (this r.2) =
           Some (Date_now w (S (tick s0)) + expires_in d * 1000)
     | inl e =>
         r.1 = Throw e /\
         accessToken (this r.2) = accessToken (this s) /\
         accessTokenExpiry (this r.2) = accessTokenExpiry (this s)
     end) /\
  (~ stale (this s) t ->
     r = (Ret tt, s0) /\ trace r.2 = trace s /\ this r.2 = this s).
Proof.
  cbv zeta. split; [apply needs_refresh_stale |].
  rewrite ensureValidAccessToken_run. split.
  - intros Hstale. apply needs_refresh_stale in Hstale. rewrite Hstale.
    rewrite refreshAccessToken_run.
    destruct (oauth_token w (tick (advance s))) as [e | d]; simpl;
      rewrite count_app; repeat split; unfold count; simpl; lia.
  - intros Hfresh.
    destruct (needs_refresh (this s) (Date_now w (tick s))) eqn:E.
    + exfalso. apply Hfresh. now apply needs_refresh_stale.
    + repeat split.
Qed.

End TokenManager.

(** ** What every method leaves alone *)

Lemma silent_refl (s : St) : silent s s.
Proof. repeat split; lia. Qed.

Lemma silent_trans (s1 s2 s3 : St) : silent s1 s2 -> silent s2 s3 -> silent s1 s3.
Proof.
  intros (H1 & H2 & H3) (H4 & H5 & H6). repeat split; try congruence; lia.
Qed.

Lemma schedule_snoc (tr : list event) (e : event) :
  schedule (tr ++ [e]) =
  (schedule tr ++ match schedule_of e with Some x => [x] | None => [] end)%list.
Proof.
  unfold schedule. rewrite omap_app. simpl. now destruct (schedule_of e).
Qed.

Create HintDb automator.
#[local] Hint Resolve silent_refl : automator.

Ltac run_cases :=
  repeat match goal with
    | |- context [match ?x with inl _ => _ | inr _ => _ end] =>
        is_var x; destruct x
    | |- context [match oauth_token ?w ?t with _ => _ end] =>
        destruct (oauth_token w t) eqn:?
    | |- context [match videos_list ?w ?t with _ => _ end] =>
        destruct (videos_list w t) eqn:?
    | |- context [match videos_update ?w ?t with _ => _ end] =>
        destruct (videos_update w t) eqn:?
    | |- context [match items ?d with _ => _ end] =>
        destruct (items d) as [[| ? ?] |] eqn:?
    end.

Section Frames.

Variable w : World.

Lemma refreshAccessToken_silent (s : St) :
  silent s (refreshAccessToken w s).2 /\
  stats (this (refreshAccessToken w s).2) = stats (this s) /\
  (tick s < tick (refreshAccessToken w s).2)%nat.
Proof.
  rewrite refreshAccessToken_run. unfold silent. run_cases; simpl;
    rewrite schedule_snoc; simpl; rewrite app_nil_r; repeat split; lia.
Qed.

Lemma ensureValidAccessToken_silent (s : St) :
  silent s (ensureValidAccessToken w s).2 /\
  stats (this (ensureValidAccessToken w s).2) = stats (this s) /\
  (tick s < tick (ensureValidAccessToken w s).2)%nat.
Proof.
  rewrite ensureValidAccessToken_run.
  destruct (needs_refresh _ _).
  - destruct (refreshAccessToken_silent (advance s)) as ((H1 & H2 & H3) & H4 & H5).
    simpl in *. unfold silent. repeat split; try congruence; lia.
  - unfold silent. simpl. repeat split; lia.
Qed.

Lemma generateDynamicTitle_silent (st : VideoStats)
    (originalTitle strategy : string) (s : St) :
  silent s (generateDynamicTitle w st originalTitle strategy s).2 /\
  trace (generateDynamicTitle w st originalTitle strategy s).2 = trace s /\
  stats (this (generateDynamicTitle w st originalTitle strategy s).2) =
    stats (this s).
Proof.
  rewrite generateDynamicTitle_run. unfold silent.
  destruct (chosen _ _ _ _); simpl; repeat split; lia.
Qed.

(** One attempt: the counter moves only when the attempt returns. *)
Lemma updateVideoTitle_try_frame (videoId newTitle : string)
    (currentStats : VideoStats) (s : St) :
  let r := updateVideoTitle_try w videoId newTitle currentStats s in
  silent s r.2 /\
  (tick s < tick r.2)%nat /\
  match r.1 with
  | Ret _ =>
      updatesPerformed (stats (this r.2)) = updatesPerformed (stats (this s)) + 1
      /\ exists t, lastUpdate (stats (this r.2)) = Some (toISOString w t)
  | _ => stats (this r.2) = stats (this s)
  end.
Proof.
  cbv zeta. rewrite updateVideoTitle_try_run. cbv zeta. unfold silent.
  run_cases; simpl; rewrite ?schedule_snoc; simpl; rewrite ?app_nil_r;
    repeat split; eauto; lia.
Qed.

Lemma refreshAccessToken_not_pending (s : St) :
  (refreshAccessToken w s).1 <> Pending.
Proof. rewrite refreshAccessToken_run. run_cases; discriminate. Qed.

Lemma ensureValidAccessToken_not_pending (s : St) :
  (ensureValidAccessToken w s).1 <> Pending.
Proof.
  rewrite ensureValidAccessToken_run.
  destruct (needs_refresh _ _); [apply refreshAccessToken_not_pending |].
  discriminate.
Qed.

Lemma updateVideoTitle_try_not_pending (videoId newTitle : string)
    (currentStats : VideoStats) (s : St) :
  (updateVideoTitle_try w videoId newTitle currentStats s).1 <> Pending.
Proof.
  rewrite updateVideoTitle_try_run. cbv zeta. run_cases; discriminate.
Qed.



(** The whole update, retries included. *)
Lemma updateVideoTitle_frame (fuel : nat) (videoId newTitle : string)
    (currentStats : VideoStats) (s : St) :
  let r := updateVideoTitle w fuel videoId newTitle currentStats s in
  silent s r.2 /\
  match r.1 with
  | Ret _ =>
      updatesPerformed (stats (this r.2)) = updatesPerformed (stats (this s)) + 1
      /\ exists t, lastUpdate (stats (this r.2)) = Some (toISOString w t)
  | _ => stats (this r.2) = stats (this s)
  end.
Proof.
  cbv zeta. revert s. induction fuel as [| fuel IH]; intros s.
  - simpl. auto with automator.
  - rewrite updateVideoTitle_unfold.
    pose proof (ensureValidAccessToken_silent s) as (He1 & He2 & _).
    destruct (ensureValidAccessToken w s) as [[[] | e |] s1]; simpl in *;
      try (split; assumption).
    pose proof (updateVideoTitle_try_frame videoId newTitle currentStats s1)
      as (Ht1 & _ & Ht2). cbv zeta in Ht1, Ht2.
    destruct (updateVideoTitle_try w videoId newTitle currentStats s1)
      as [[b | error |] s2]; simpl in *.
    + split; [eapply silent_trans; eassumption |].
      rewrite <- He2. exact Ht2.
    + destruct (has_status error 401).
      * pose proof (refreshAccessToken_silent s2) as (Hr1 & Hr2 & _).
        destruct (refreshAccessToken w s2) as [[[] | e |] s3]; simpl in *.
        -- specialize (IH s3). destruct IH as (IH1 & IH2).
           split; [eauto using silent_trans |].
           assert (Hs : stats (this s3) = stats (this s))
             by now rewrite Hr2, Ht2.
           rewrite <- Hs. exact IH2.
        -- split; [eauto using silent_trans | now rewrite Hr2, Ht2].
        -- split; [eauto using silent_trans | now rewrite Hr2, Ht2].
      * simpl. split; [eauto using silent_trans | now rewrite Ht2].
    + simpl. split; [eauto using silent_trans | now rewrite Ht2].
Qed.

End Frames.

Section Orchestrator.

Variable w : World.

Lemma getVideoStats_frame (videoId : string) (s : St) :
  let r := getVideoStats w videoId s in
  schedule (trace r.2) = (schedule (trace s) ++ [inl videoId])%list /\
  tick r.2 = S (tick s) /\
  trace r.2 = (trace s ++ [stats_request w s videoId])%list /\
  updatesPerformed (stats (this r.2)) = updatesPerformed (stats (this s)) /\
  lastUpdate (stats (this r.2)) = lastUpdate (stats (this s)) /\
  peakEngagement (stats (this r.2)) =
    match r.1 with
    | Ret st => Z.max (peakEngagement (stats (this s))) (likes st + comments st)
    | _ => peakEngagement (stats (this s))
    end.
Proof.
  cbv zeta. rewrite getVideoStats_run. cbv zeta. unfold observed.
  run_cases; simpl;
    try match goal with
      | |- context [if ?a <? ?b then _ else _] => destruct (Z.ltb_spec a b)
      end; simpl; rewrite schedule_snoc; simpl; repeat split; lia.
Qed.

Lemma processVideo_run (fuel : nat) (videoId originalTitle strategy : string)
    (s : St) :
  processVideo w fuel videoId originalTitle strategy s =
  match getVideoStats w videoId s with
  | (Ret st, s1) =>
      match generateDynamicTitle w st originalTitle strategy s1 with
      | (Ret newTitle, s2) =>
          if strict_eq_string newTitle (currentTitle st)
          then (Ret (Succeeded videoId (currentTitle st) newTitle st), s2)
          else match updateVideoTitle w fuel videoId newTitle st s2 with
               | (Ret _, s3) =>
                   (Ret (Succeeded videoId (currentTitle st) newTitle st), s3)
               | (Throw e, s3) => (Ret (Failed videoId (message e)), s3)
               | (Pending, s3) => (Pending, s3)
               end
      | (Throw e, s2) => (Ret (Failed videoId (message e)), s2)
      | (Pending, s2) => (Pending, s2)
      end
  | (Throw e, s1) => (Ret (Failed videoId (message e)), s1)
  | (Pending, s1) => (Pending, s1)
  end.
Proof.
  unfold processVideo, processVideo_try, try_catch. unfold bind at 1.
  destruct (getVideoStats w videoId s) as [[st | e |] s1]; try reflexivity.
  unfold bind at 1.
  destruct (generateDynamicTitle w st originalTitle strategy s1)
    as [[newTitle | e |] s2]; try reflexivity.
  unfold bind at 1.
  destruct (strict_eq_string newTitle (currentTitle st)); simpl;
    [reflexivity |].
  unfold bind at 1.
  destruct (updateVideoTitle w fuel videoId newTitle st s2) as [[b | e |] s3];
    reflexivity.
Qed.

(** What one video adds: one statistics read, no pause; the peak does not go
    down; no exception leaves [processVideo]. *)
Lemma processVideo_frame (fuel : nat) (videoId originalTitle strategy : string)
    (s : St) :
  let r := processVideo w fuel videoId originalTitle strategy s in
  schedule (trace r.2) = (schedule (trace s) ++ [inl videoId])%list /\
  (tick s <= tick r.2)%nat /\
  peakEngagement (stats (this s)) <= peakEngagement (stats (this r.2)) /\
  (forall e, r.1 <> Throw e) /\
  (forall res, r.1 = Ret res -> result_videoId res = videoId).
Proof.
  cbv zeta. rewrite processVideo_run.
  pose proof (getVideoStats_frame videoId s) as (Hg1 & Hg2 & _ & _ & _ & Hg3).
  cbv zeta in *.
  assert (Hpeak : peakEngagement (stats (this s))
                  <= peakEngagement (stats (this (getVideoStats w videoId s).2))).
  { rewrite Hg3. destruct (getVideoStats w videoId s).1; lia. }
  clear Hg3.
  destruct (getVideoStats w videoId s) as [[st | e |] s1]; simpl in *;
    try (repeat split; try lia; try congruence;
         intros ? [= <-]; reflexivity).
  pose proof (generateDynamicTitle_silent w st originalTitle strategy s1)
    as ((Ht1 & Ht2 & Ht3) & _).
  destruct (generateDynamicTitle w st originalTitle strategy s1)
    as [[newTitle | e |] s2]; simpl in *;
    try (repeat split; try lia; try congruence;
         intros ? [= <-]; reflexivity).
  destruct (strict_eq_string newTitle (currentTitle st)); simpl;
    try (repeat split; try lia; try congruence;
         intros ? [= <-]; reflexivity).
  pose proof (updateVideoTitle_frame w fuel videoId newTitle st s2)
    as ((Hu1 & Hu2 & Hu3) & _).
  destruct (updateVideoTitle w fuel videoId newTitle st s2) as [[b | e |] s3];
    simpl in *;
    repeat split; try lia; try congruence; intros ? [= <-]; reflexivity.
Qed.

End Orchestrator.

(** ** Termination when authentication failures stop *)

Section Settling.

Variable w : World.
Variable T : nat.
Hypothesis settles : auth_settles w T.

(** An attempt that fails with status 401 got that answer from one of the
    two videos endpoints, so it started before [T]. *)
Lemma updateVideoTitle_try_unauthorized (videoId newTitle : string)
    (currentStats : VideoStats) (s s' : St) (error : js_error) :
  updateVideoTitle_try w videoId newTitle currentStats s = (Throw error, s') ->
  has_status error 401 = true ->
  (tick s < T)%nat.
Proof.
  rewrite updateVideoTitle_try_run. cbv zeta. intros Hrun H401.
  destruct (Nat.lt_ge_cases (tick s) T) as [Hlt | Hge]; [exact Hlt | exfalso].
  destruct (videos_list w (tick s)) as [e | d] eqn:Hget.
  - injection Hrun as <- _.
    rewrite (settles (tick s) e Hge (or_introl Hget)) in H401. discriminate.
  - destruct (items d) as [[| item rest] |]; try (injection Hrun as <- _; discriminate).
    simpl in Hrun.
    destruct (videos_update w (S (tick s))) as [e | u] eqn:Hput;
      [| discriminate].
    injection Hrun as <- _.
    rewrite (settles (S (tick s)) e) in H401; [discriminate | lia | now right].
Qed.



End Settling.

(** ** The batch loop *)

Lemma paced_last (ms : Z) (id : string) : paced ms [id] = [inl id].
Proof. reflexivity. Qed.

Lemma paced_more (ms : Z) (id id' : string) (rest : list string) :
  paced ms (id :: id' :: rest) = inl id :: inr ms :: paced ms (id' :: rest).
Proof. reflexivity. Qed.



Lemma count_timeout_schedule (tr : list event) :
  count is_timeout tr = length (List.filter is_pause (schedule tr)).
Proof.
  unfold count, schedule. induction tr as [| e tr IH]; [reflexivity |].
  destruct e; simpl; try (rewrite IH; reflexivity); try exact IH.
  destruct (String.eqb part "statistics,snippet"); simpl; exact IH.
Qed.

Section Batch.

Variable w : World.

Lemma processMultipleVideos_for_step (fuel : nat) (videos : list VideoTask)
    (strategy : string) (n i : nat) (results : list ProcessResult)
    (task : VideoTask) (s : St) :
  videos !! i = Some task ->
  processMultipleVideos_for w fuel videos strategy (S n) i results s =
  match processVideo w fuel (videoId task) (originalTitle task) strategy s with
  | (Ret result, s1) =>
      processMultipleVideos_for w fuel videos strategy n (S i)
        (results ++ [result])
        (if Z.of_nat i <? Z.of_nat (length videos) - 1 then paused s1 else s1)
  | (Throw e, s1) => (Throw e, s1)
  | (Pending, s1) => (Pending, s1)
  end.
Proof.
  intros Htask. simpl. rewrite Htask. unfold bind at 1.
  destruct (processVideo w fuel (videoId task) (originalTitle task) strategy s)
    as [[result | e |] s1]; try reflexivity.
  unfold bind at 1.
  destruct (Z.of_nat i <? Z.of_nat (length videos) - 1); reflexivity.
Qed.

Lemma processMultipleVideos_for_frame (fuel : nat) (videos : list VideoTask)
    (strategy : string) (n i : nat) (results : list ProcessResult) (s : St) :
  (i + n = length videos)%nat ->
  let r := processMultipleVideos_for w fuel videos strategy n i results s in
  (forall e, r.1 <> Throw e) /\
  peakEngagement (stats (this s)) <= peakEngagement (stats (this r.2)) /\
  (forall rs, r.1 = Ret rs ->
     exists news,
       rs = (results ++ news)%list /\
       map result_videoId news = map videoId (drop i videos) /\
       schedule (trace r.2) =
         (schedule (trace s) ++ paced 2000 (map videoId (drop i videos)))%list).
Proof.
  cbv zeta. revert i results s.
  induction n as [| n IH]; intros i results s Hlen.
  - simpl. rewrite drop_ge by lia. simpl.
    repeat split; try lia; try discriminate.
    intros rs [= <-]. exists []. now rewrite !app_nil_r.
  - destruct (lookup_lt_is_Some_2 videos i) as [task Htask]; [lia |].
    rewrite (processMultipleVideos_for_step _ _ _ _ _ _ task) by exact Htask.
    rewrite (drop_S _ _ _ Htask).
    pose proof (processVideo_frame w fuel (videoId task) (originalTitle task)
                  strategy s) as (Hp1 & _ & Hp2 & Hp3 & Hp4).
    cbv zeta in *.
    destruct (processVideo w fuel (videoId task) (originalTitle task) strategy s)
      as [[result | e |] s1]; cbn [fst snd] in *;
      [| exfalso; now apply (Hp3 e) | repeat split; try lia; discriminate].
    set (s2 := if Z.of_nat i <? Z.of_nat (length videos) - 1
               then paused s1 else s1).
    specialize (IH (S i) (results ++ [result])%list s2 ltac:(lia)).
    destruct IH as (IH1 & IH2 & IH3).
    assert (Hpeak : peakEngagement (stats (this s2))
                    = peakEngagement (stats (this s1))).
    { unfold s2. destruct (_ <? _); reflexivity. }
    split; [exact IH1 |]. split; [lia |].
    intros rs Hrs. destruct (IH3 rs Hrs) as (news & -> & Hids & Hsched).
    exists (result :: news). split; [now rewrite <- app_assoc |].
    split; [rewrite !map_cons; now rewrite Hids, (Hp4 result eq_refl) |].
    rewrite Hsched. unfold s2.
    destruct (Z.ltb_spec (Z.of_nat i) (Z.of_nat (length videos) - 1)) as [Hi | Hi].
    + destruct (drop (S i) videos) as [| task' rest] eqn:Hdrop.
      { apply (f_equal length) in Hdrop. rewrite length_drop in Hdrop.
        simpl in Hdrop. lia. }
      rewrite !map_cons, paced_more. unfold paused. simpl trace.
      cbn [trace]. rewrite schedule_snoc, Hp1. simpl.
      now rewrite <- !app_assoc.
    + rewrite (drop_ge videos (S i)) by lia. simpl.
      rewrite Hp1. now rewrite <- app_assoc.
Qed.




End Batch.

(** ** Turns *)




Section Turns.

Variable w : World.







End Turns.

(** ** The update executor *)

Lemma merge_title_title (snippet : gmap string jsval) (newTitle : string) :
  merge_title snippet newTitle !! "title" = Some (JStr newTitle).
Proof.
  unfold merge_title. rewrite lookup_insert_ne by discriminate.
  apply lookup_insert_eq.
Qed.

Lemma merge_title_prop (snippet : gmap string jsval) (newTitle k : string) :
  k <> "title" -> prop (merge_title snippet newTitle) k = prop snippet k.
Proof.
  intros Hk. unfold merge_title, prop.
  destruct (decide (k = "categoryId")) as [-> | Hc].
  - now rewrite lookup_insert_eq.
  - rewrite lookup_insert_ne by congruence.
    now rewrite lookup_insert_ne by congruence.
Qed.

Lemma merge_title_keeps (snippet : gmap string jsval) (newTitle k : string)
    (v : jsval) :
  k <> "title" -> snippet !! k = Some v ->
  merge_title snippet newTitle !! k = Some v.
Proof.
  intros Hk Hv. unfold merge_title, prop.
  destruct (decide (k = "categoryId")) as [-> | Hc].
  - rewrite lookup_insert_eq. now rewrite Hv.
  - rewrite lookup_insert_ne by congruence.
    now rewrite lookup_insert_ne by congruence.
Qed.

Lemma merge_title_adds_nothing (snippet : gmap string jsval)
    (newTitle k : string) :
  k <> "title" -> k <> "categoryId" ->
  merge_title snippet newTitle !! k = snippet !! k.
Proof.
  intros Hk Hc. unfold merge_title.
  rewrite lookup_insert_ne by congruence.
  now rewrite lookup_insert_ne by congruence.
Qed.


Section Executor.

Variable w : World.

Lemma updateVideoTitle_try_payload (videoId newTitle : string)
    (currentStats : VideoStats) (s s' : St) (b : bool) :
  updateVideoTitle_try w videoId newTitle currentStats s = (Ret b, s') ->
  ends_with_merged_write (trace s') videoId newTitle.
Proof.
  rewrite updateVideoTitle_try_run. cbv zeta.
  unfold snippet_request, write_request.
  destruct (videos_list w (tick s)) as [e | d] eqn:Hget; [discriminate |].
  destruct (items d) as [[| item rest] |] eqn:Hitems; try discriminate.
  simpl.
  destruct (videos_update w (S (tick s))) as [e | []] eqn:Hput; [discriminate |].
  intros [= _ <-]. simpl.
  exists (trace s), (youtubeApiKey (this s)), d, item, rest,
    (bearer (accessToken (this s))).
  split; [now rewrite <- app_assoc | exact Hitems].
Qed.

Lemma updateVideoTitle_payload (fuel : nat) (videoId newTitle : string)
    (currentStats : VideoStats) (s s' : St) (b : bool) :
  updateVideoTitle w fuel videoId newTitle currentStats s = (Ret b, s') ->
  ends_with_merged_write (trace s') videoId newTitle.
Proof.
  revert s. induction fuel as [| fuel IH]; intros s; [discriminate |].
  rewrite updateVideoTitle_unfold.
  destruct (ensureValidAccessToken w s) as [[[] | e |] s1]; try discriminate.
  destruct (updateVideoTitle_try w videoId newTitle currentStats s1)
    as [[b' | error |] s2] eqn:Htry; try discriminate.
  - intros [= <- <-]. eapply updateVideoTitle_try_payload. exact Htry.
  - destruct (has_status error 401); [| discriminate].
    destruct (refreshAccessToken w s2) as [[[] | e |] s3]; try discriminate.
    apply IH.
Qed.

End Executor.

(** ** The claims *)

Section Claims.

Variable w : World.

(** C1 (as the code has it). When an attempt of [updateVideoTitle] fails with
    status 401, one forced refresh follows (one request to the token
    endpoint) and then the whole operation is run again with the same
    arguments; that retry is handled like the first attempt, so a second
    status 401 leads to another refresh and another attempt.  A failure with
    another status, or none, is thrown to the caller as received, with no
    refresh and no retry; so is a failure of the forced refresh. *)
Theorem updateVideoTitle_retries_after_401 (fuel : nat)
    (videoId newTitle : string) (currentStats : VideoStats) (s s1 s2 : St)
    (error : js_error) :
  ensureValidAccessToken w s = (Ret tt, s1) ->
  updateVideoTitle_try w videoId newTitle currentStats s1 = (Throw error, s2) ->
  (has_status error 401 = false ->
     updateVideoTitle w (S fuel) videoId newTitle currentStats s
     = (Throw error, s2)) /\
  (has_status error 401 = true ->
     trace (refreshAccessToken w s2).2
     = (trace s2 ++ [token_request s2 (oauth_token w (tick s2))])%list /\
     match oauth_token w (tick s2) with
     | inr d =>
         updateVideoTitle w (S fuel) videoId newTitle currentStats s
         = updateVideoTitle w fuel videoId newTitle currentStats (refreshed w s2 d)
     | inl e =>
         updateVideoTitle w (S fuel) videoId newTitle currentStats s
         = (Throw e, interact s2 (token_request s2 (inl e)))
     end).
Proof.
  intros Hens Htry. rewrite updateVideoTitle_unfold, Hens, Htry. split.
  - intros ->. reflexivity.
  - intros ->. rewrite refreshAccessToken_run.
    destruct (oauth_token w (tick s2)) as [e | d]; split; reflexivity.
Qed.

(** C3. Once the statistics are fetched and the title rendered: if the
    rendered title equals the current one, [processVideo] sends nothing to
    the write endpoint (the trace gains the statistics read only) and returns
    a success whose [newTitle] is its [oldTitle]; otherwise it runs
    [updateVideoTitle] and reports its outcome, a success when it returns
    and a failure carrying the message when it throws. *)
Theorem processVideo_skips_unchanged_title (fuel : nat)
    (videoId originalTitle strategy : string) (s s1 s2 : St)
    (st : VideoStats) (newTitle : string) :
  getVideoStats w videoId s = (Ret st, s1) ->
  generateDynamicTitle w st originalTitle strategy s1 = (Ret newTitle, s2) ->
  (currentTitle st = JStr newTitle ->
     processVideo w fuel videoId originalTitle strategy s
     = (Ret (Succeeded videoId (JStr newTitle) newTitle st), s2) /\
     trace s2 = (trace s ++ [stats_request w s videoId])%list /\
     count is_put (trace s2) = count is_put (trace s)) /\
  (currentTitle st <> JStr newTitle ->
     processVideo w fuel videoId originalTitle strategy s
     = match updateVideoTitle w fuel videoId newTitle st s2 with
       | (Ret _, s3) => (Ret (Succeeded videoId (currentTitle st) newTitle st), s3)
       | (Throw e, s3) => (Ret (Failed videoId (message e)), s3)
       | (Pending, s3) => (Pending, s3)
       end).
Proof.
  intros Hstats Htitle. rewrite processVideo_run, Hstats, Htitle.
  pose proof (getVideoStats_frame w videoId s) as (_ & _ & Htr & _).
  pose proof (generateDynamicTitle_silent w st originalTitle strategy s1)
    as (_ & Htr2 & _).
  cbv zeta in Htr. rewrite Hstats in Htr. rewrite Htitle in Htr2. simpl in *.
  split.
  - intros Heq. rewrite Heq. simpl. rewrite String.eqb_refl.
    repeat split.
    + congruence.
    + rewrite Htr2, Htr, count_app. unfold count, stats_request. simpl. lia.
  - intros Hne.
    destruct (strict_eq_string newTitle (currentTitle st)) eqn:E; [| reflexivity].
    exfalso. apply Hne. unfold strict_eq_string in E.
    destruct (currentTitle st); try discriminate.
    apply String.eqb_eq in E. now subst.
Qed.

(** C10. When [updateVideoTitle] does not return (it throws, whatever the
    failing step, or is still retrying), [updatesPerformed] and [lastUpdate]
    are as before the call; when it returns, the counter has been incremented
    once and the timestamp set. *)
Theorem updateVideoTitle_counts_only_success (fuel : nat)
    (videoId newTitle : string) (currentStats : VideoStats) (s s' : St)
    (o : outcome bool) :
  updateVideoTitle w fuel videoId newTitle currentStats s = (o, s') ->
  match o with
  | Ret _ =>
      updatesPerformed (stats (this s')) = updatesPerformed (stats (this s)) + 1
      /\ exists t, lastUpdate (stats (this s')) = Some (toISOString w t)
  | _ =>
      updatesPerformed (stats (this s')) = updatesPerformed (stats (this s)) /\
      lastUpdate (stats (this s')) = lastUpdate (stats (this s))
  end.
Proof.
  intros Hrun.
  pose proof (updateVideoTitle_frame w fuel videoId newTitle currentStats s)
    as (_ & H). cbv zeta in H. rewrite Hrun in H. simpl in H.
  destruct o; [exact H | now rewrite H | now rewrite H].
Qed.

(** C9. When [updateVideoTitle] returns, the last two requests are the
    re-fetch of the snippet and the acknowledged write, and the snippet
    written has the new title and, under every other key, what the re-fetched
    snippet has under it. *)
Theorem updateVideoTitle_preserves_snippet (fuel : nat)
    (videoId newTitle : string) (currentStats : VideoStats) (s s' : St)
    (b : bool) :
  updateVideoTitle w fuel videoId newTitle currentStats s = (Ret b, s') ->
  exists pre key d item rest updateData auth,
    trace s' = (pre ++ [EvVideosGet key videoId "snippet" (inr d);
                        EvVideosPut updateData auth (inr tt)])%list /\
    items d = Some (item :: rest) /\
    ud_id updateData = videoId /\
    ud_snippet updateData !! "title" = Some (JStr newTitle) /\
    (forall k, k <> "title" ->
       prop (ud_snippet updateData) k = prop (snippet item) k) /\
    (forall k v, k <> "title" -> snippet item !! k = Some v ->
       ud_snippet updateData !! k = Some v) /\
    (forall k, k <> "title" -> k <> "categoryId" ->
       ud_snippet updateData !! k = snippet item !! k).
Proof.
  intros Hrun.
  destruct (updateVideoTitle_payload w fuel _ _ _ _ _ _ Hrun)
    as (pre & key & d & item & rest & auth & Htr & Hitems).
  exists pre, key, d, item, rest,
    {| ud_id := videoId; ud_snippet := merge_title (snippet item) newTitle |},
    auth.
  simpl. repeat split; try assumption.
  - apply merge_title_title.
  - intros k Hk. now apply merge_title_prop.
  - intros k v Hk Hv. now apply merge_title_keeps.
  - intros k Hk Hc. now apply merge_title_adds_nothing.
Qed.

End Claims.

Section BatchClaims.

Variable w : World.



(** C8. [peakEngagement] never decreases.  [getVideoStats] is the only
    method that writes it: a fetched record sets it to the maximum of its
    value and [likes + comments], a failed fetch leaves it; the token
    manager, the renderer and the update executor leave it as it is; so one
    video and a whole batch can only raise it. *)
Theorem peakEngagement_only_grows (fuel : nat) (s : St) :
  let peak (x : St) := peakEngagement (stats (this x)) in
  (forall videoId,
     peak (getVideoStats w videoId s).2 =
     match (getVideoStats w videoId s).1 with
     | Ret st => Z.max (peak s) (likes st + comments st)
     | _ => peak s
     end) /\
  peak (refreshAccessToken w s).2 = peak s /\
  peak (ensureValidAccessToken w s).2 = peak s /\
  (forall st originalTitle strategy,
     peak (generateDynamicTitle w st originalTitle strategy s).2 = peak s) /\
  (forall videoId newTitle currentStats,
     peak (updateVideoTitle w fuel videoId newTitle currentStats s).2 = peak s) /\
  (forall videoId originalTitle strategy,
     peak s <= peak (processVideo w fuel videoId originalTitle strategy s).2) /\
  (forall videos strategy,
     peak s <= peak (processMultipleVideos w fuel videos strategy s).2).
Proof.
  cbv zeta. repeat split.
  - intros videoId. apply (getVideoStats_frame w videoId s).
  - apply (refreshAccessToken_silent w s).
  - apply (ensureValidAccessToken_silent w s).
  - intros st originalTitle strategy.
    apply (generateDynamicTitle_silent w st originalTitle strategy s).
  - intros videoId newTitle currentStats.
    apply (updateVideoTitle_frame w fuel videoId newTitle currentStats s).
  - intros videoId originalTitle strategy.
    apply (processVideo_frame w fuel videoId originalTitle strategy s).
  - intros videos strategy.
    apply (processMultipleVideos_for_frame w fuel videos strategy
             (length videos) 0 [] s eq_refl).
Qed.

End BatchClaims.

(** ** Concrete runs *)

Lemma demo_world_settles (k : nat) : auth_settles (demo_world k) k.
Proof.
  intros t e Ht [Hget | Hput]; simpl in *; [discriminate |].
  destruct (Nat.ltb_spec t k); [lia | discriminate].
Qed.

Example en_US_thousands : en_US 1234567 = "1,234,567".
Proof. reflexivity. Qed.

Example render_demo :
  (generateDynamicTitle (demo_world 0) demo_stats "Demo" "auto"
     (start new_Automator)).1
  = Ret "This video now has 1,000 views, 50 likes, and 10 comments - Demo".
Proof. reflexivity. Qed.

Example render_long_title :
  (generateDynamicTitle (demo_world 0) demo_stats
     "Building Vaultittech: Real-Time Revenue Tracking for Creators" "auto"
     (start new_Automator)).1
  = Ret ("This video now has 1,000 views, 50 likes, and 10 comments - "
         +:+ "Building Vaultittech: Real-Time Reven...").
Proof. reflexivity. Qed.

Example batch_of_two :
  let r := processMultipleVideos (demo_world 0) 1 two_videos "auto"
             (start new_Automator) in
  map success (match r.1 with Ret rs => rs | _ => [] end) = [true; true] /\
  schedule (trace r.2) = [inl "vidA"; inr 2000; inl "vidB"] /\
  turns (trace r.2) None = Some (Some "vidB") /\
  count is_put (trace r.2) = 2%nat /\
  updatesPerformed (stats (this r.2)) = 2 /\
  peakEngagement (stats (this r.2)) = 60.
Proof. vm_compute. repeat split. Qed.

(** Once the title is in place, a batch writes nothing. *)
Example batch_steady :
  let r := processMultipleVideos steady_world 1
             [ {| videoId := "vidA"; originalTitle := "Demo" |} ] "auto"
             (start new_Automator) in
  count is_put (trace r.2) = 0%nat /\
  count is_token_post (trace r.2) = 0%nat /\
  updatesPerformed (stats (this r.2)) = 0.
Proof. vm_compute. repeat split. Qed.

(** C1, as stated, fails.  The platform answers 401 to the first two writes:
    the retry fails with an authentication error like the first attempt, yet
    a third refresh-and-write follows and the call returns [true] instead of
    throwing. *)
Lemma updateVideoTitle_third_attempt :
  let r := updateVideoTitle (demo_world 10) 3 "vid" "New" demo_stats
             (start new_Automator) in
  put_replies (trace r.2) = [inl unauthorized; inl unauthorized; inr tt] /\
  has_status unauthorized 401 = true /\
  count is_put (trace r.2) = 3%nat /\
  count is_token_post (trace r.2) = 3%nat /\
  r.1 = Ret true.
Proof. vm_compute. repeat split. Qed.

Lemma updateVideoTitle_retries_after_401_witness :
  let w := demo_world 10 in
  let s := start new_Automator in
  let s1 := (ensureValidAccessToken w s).2 in
  let s2 := (updateVideoTitle_try w "vid" "New" demo_stats s1).2 in
  ensureValidAccessToken w s = (Ret tt, s1) /\
  updateVideoTitle_try w "vid" "New" demo_stats s1 = (Throw unauthorized, s2) /\
  has_status unauthorized 401 = true /\
  updateVideoTitle w 3 "vid" "New" demo_stats s
  = updateVideoTitle w 2 "vid" "New" demo_stats
      (refreshed w s2 {| access_token := "ya29.token"; expires_in := 3600 |}).
Proof.
  cbv zeta.
  assert (H1 : ensureValidAccessToken (demo_world 10) (start new_Automator)
               = (Ret tt, (ensureValidAccessToken (demo_world 10)
                             (start new_Automator)).2))
    by (vm_compute; reflexivity).
  assert (H2 : updateVideoTitle_try (demo_world 10) "vid" "New" demo_stats
                 (ensureValidAccessToken (demo_world 10) (start new_Automator)).2
               = (Throw unauthorized,
                  (updateVideoTitle_try (demo_world 10) "vid" "New" demo_stats
                     (ensureValidAccessToken (demo_world 10)
                        (start new_Automator)).2).2))
    by (vm_compute; reflexivity).
  split; [exact H1 |]. split; [exact H2 |]. split; [reflexivity |].
  exact (proj2 (proj2 (updateVideoTitle_retries_after_401 (demo_world 10) 2
                         "vid" "New" demo_stats _ _ _ _ H1 H2) eq_refl)).
Defined.

Lemma processVideo_skips_unchanged_title_witness :
  let w := steady_world in
  let s := start new_Automator in
  let r := getVideoStats w "vid" s in
  let st := video_stats {| statistics := statistics demo_item;
                           snippet := <["title" := JStr steady_title]> demo_snippet |} in
  getVideoStats w "vid" s = (Ret st, r.2) /\
  generateDynamicTitle w st "Demo" "auto" r.2 = (Ret steady_title, advance r.2) /\
  currentTitle st = JStr steady_title /\
  processVideo w 3 "vid" "Demo" "auto" s
  = (Ret (Succeeded "vid" (JStr steady_title) steady_title st), advance r.2) /\
  trace (advance r.2) = (trace s ++ [stats_request w s "vid"])%list /\
  count is_put (trace (advance r.2)) = count is_put (trace s).
Proof.
  cbv zeta.
  set (st := video_stats {| statistics := statistics demo_item;
                            snippet := <["title" := JStr steady_title]> demo_snippet |}).
  assert (H1 : getVideoStats steady_world "vid" (start new_Automator)
               = (Ret st, (getVideoStats steady_world "vid" (start new_Automator)).2))
    by (vm_compute; reflexivity).
  assert (H2 : generateDynamicTitle steady_world st "Demo" "auto"
                 (getVideoStats steady_world "vid" (start new_Automator)).2
               = (Ret steady_title,
                  advance (getVideoStats steady_world "vid" (start new_Automator)).2))
    by (vm_compute; reflexivity).
  assert (H3 : currentTitle st = JStr steady_title) by (vm_compute; reflexivity).
  split; [exact H1 |]. split; [exact H2 |]. split; [exact H3 |].
  exact (proj1 (processVideo_skips_unchanged_title steady_world 3 "vid" "Demo"
                  "auto" _ _ _ _ _ H1 H2) H3).
Defined.

Lemma getVideoStats_ratios_witness :
  videos_list (demo_world 0) (tick (start new_Automator))
  = inr {| items := Some [demo_item] |} /\
  exists st s',
    getVideoStats (demo_world 0) "vid" (start new_Automator) = (Ret st, s') /\
    st = video_stats demo_item /\
    (0 < views st ->
       likeRatio st = Some (inject_Z (likes st) / inject_Z (views st))%Q /\
       commentRatio st = Some (inject_Z (comments st) / inject_Z (views st))%Q /\
       (0 <= likes st <= views st ->
          (0 <= inject_Z (likes st) / inject_Z (views st) <= 1)%Q) /\
       (0 <= comments st <= views st ->
          (0 <= inject_Z (comments st) / inject_Z (views st) <= 1)%Q)) /\
    (views st = 0 -> likeRatio st = Some 0%Q /\ commentRatio st = Some 0%Q).
Proof.
  split; [reflexivity |].
  exact (getVideoStats_ratios (demo_world 0) "vid" (start new_Automator)
           {| items := Some [demo_item] |} demo_item [] eq_refl eq_refl).
Defined.

Lemma updateVideoTitle_preserves_snippet_witness :
  let r := updateVideoTitle (demo_world 0) 1 "vid" "New" demo_stats
             (start new_Automator) in
  r = (Ret true, r.2) /\
  exists pre key d item rest updateData auth,
    trace r.2 = (pre ++ [EvVideosGet key "vid" "snippet" (inr d);
                         EvVideosPut updateData auth (inr tt)])%list /\
    items d = Some (item :: rest) /\
    ud_id updateData = "vid" /\
    ud_snippet updateData !! "title" = Some (JStr "New") /\
    (forall k, k <> "title" ->
       prop (ud_snippet updateData) k = prop (snippet item) k) /\
    (forall k v, k <> "title" -> snippet item !! k = Some v ->
       ud_snippet updateData !! k = Some v) /\
    (forall k, k <> "title" -> k <> "categoryId" ->
       ud_snippet updateData !! k = snippet item !! k).
Proof.
  cbv zeta.
  assert (H : updateVideoTitle (demo_world 0) 1 "vid" "New" demo_stats
                (start new_Automator)
              = (Ret true, (updateVideoTitle (demo_world 0) 1 "vid" "New"
                              demo_stats (start new_Automator)).2))
    by (vm_compute; reflexivity).
  split; [exact H |].
  exact (updateVideoTitle_preserves_snippet (demo_world 0) 1 "vid" "New"
           demo_stats _ _ _ H).
Defined.

Lemma updateVideoTitle_counts_only_success_witness :
  let s := start new_Automator in
  let r := updateVideoTitle forbidden_world 3 "vid" "New" demo_stats s in
  r = (Throw forbidden, r.2) /\
  updatesPerformed (stats (this r.2)) = updatesPerformed (stats (this s)) /\
  lastUpdate (stats (this r.2)) = lastUpdate (stats (this s)).
Proof.
  cbv zeta.
  assert (H : updateVideoTitle forbidden_world 3 "vid" "New" demo_stats
                (start new_Automator)
              = (Throw forbidden, (updateVideoTitle forbidden_world 3 "vid" "New"
                                     demo_stats (start new_Automator)).2))
    by (vm_compute; reflexivity).
  split; [exact H |].
  exact (updateVideoTitle_counts_only_success forbidden_world 3 "vid" "New"
           demo_stats _ _ _ H).
Defined.



(** ** Requests, credentials and the update counter *)

Lemma evolves_refl (a0 : Automator) (P : event -> Prop) (s : St) :
  evolves a0 P s s.
Proof.
  intros Hc. split; [exact Hc |]. exists []. rewrite app_nil_r.
  repeat split; [constructor | unfold count; simpl; lia].
Qed.

Lemma evolves_trans (a0 : Automator) (P : event -> Prop) (s1 s2 s3 : St) :
  evolves a0 P s1 s2 -> evolves a0 P s2 s3 -> evolves a0 P s1 s3.
Proof.
  intros H12 H23 Hc.
  destruct (H12 Hc) as (Hc2 & tr1 & Ht1 & HP1 & Hu1).
  destruct (H23 Hc2) as (Hc3 & tr2 & Ht2 & HP2 & Hu2).
  split; [exact Hc3 |]. exists (tr1 ++ tr2)%list.
  split; [rewrite Ht2, Ht1; now rewrite <- app_assoc |].
  split; [now apply Forall_app |].
  rewrite count_app, Hu2, Hu1. lia.
Qed.

Lemma evolves_weaken (a0 : Automator) (P Q : event -> Prop) (s s' : St) :
  (forall e, P e -> Q e) -> evolves a0 P s s' -> evolves a0 Q s s'.
Proof.
  intros HPQ H Hc. destruct (H Hc) as (Hc' & tr & Ht & HP & Hu).
  split; [exact Hc' |]. exists tr. repeat split; try assumption.
  eapply Forall_impl; eassumption.
Qed.

(** A state that differs from [s] by a tick only. *)
Lemma evolves_advance (a0 : Automator) (P : event -> Prop) (s : St) :
  evolves a0 P s (advance s).
Proof. apply (evolves_refl a0 P s). Qed.

Section Evolution.

Variable w : World.
Variable a0 : Automator.

Lemma refreshAccessToken_evolves (P : event -> Prop) (s : St) :
  (forall r, P (EvTokenPost (clientId a0) (clientSecret a0) (refreshToken a0) r)) ->
  evolves a0 P s (refreshAccessToken w s).2.
Proof.
  intros HP Hc. rewrite refreshAccessToken_run.
  assert (Hreq : forall r, P (token_request s r)).
  { intros r. unfold token_request.
    destruct Hc as (_ & -> & -> & -> & _). apply HP. }
  destruct (oauth_token w (tick s)) as [e | d]; simpl;
    (split; [exact Hc |]);
    eexists [_]; (split; [reflexivity |]);
    (split; [repeat constructor; apply Hreq | unfold count; simpl; lia]).
Qed.

Lemma ensureValidAccessToken_evolves (P : event -> Prop) (s : St) :
  (forall r, P (EvTokenPost (clientId a0) (clientSecret a0) (refreshToken a0) r)) ->
  evolves a0 P s (ensureValidAccessToken w s).2.
Proof.
  intros HP. rewrite ensureValidAccessToken_run.
  destruct (needs_refresh _ _); [| apply evolves_advance].
  apply (evolves_trans a0 P s (advance s)); [apply evolves_advance |].
  now apply refreshAccessToken_evolves.
Qed.

Lemma updateVideoTitle_try_evolves (videoId newTitle : string)
    (currentStats : VideoStats) (s : St) :
  evolves a0 (update_request a0 videoId newTitle) s
    (updateVideoTitle_try w videoId newTitle currentStats s).2.
Proof.
  intros Hc. rewrite updateVideoTitle_try_run. cbv zeta.
  assert (Hget : update_request a0 videoId newTitle (snippet_request w s videoId)).
  { unfold snippet_request. simpl. destruct Hc as (-> & _). repeat split. }
  assert (Hput : forall s1 item,
            update_request a0 videoId newTitle
              (write_request w s1 videoId newTitle item)).
  { intros s1 item. unfold write_request. simpl. split; [reflexivity |].
    unfold merge_title. rewrite lookup_insert_ne by discriminate.
    apply lookup_insert_eq. }
  destruct (videos_list w (tick s)) as [e | d]; simpl.
  - split; [exact Hc |]. eexists [_]. split; [reflexivity |].
    split; [apply Forall_cons_2; [exact Hget | apply Forall_nil_2]
           | unfold count, snippet_request; simpl; lia].
  - destruct (items d) as [[| item rest] |]; simpl;
      try (split; [exact Hc |]; eexists [_]; (split; [reflexivity |]);
           (split; [apply Forall_cons_2; [exact Hget | apply Forall_nil_2]
                   | unfold count, snippet_request; simpl; lia])).
    pose proof (Hput (interact s (snippet_request w s videoId)) item) as Hput1.
    unfold write_request, written in *. simpl in *.
    destruct (videos_update w (S (tick s))) as [e | u]; simpl;
      (split; [exact Hc |]); eexists [_; _];
      (split; [now rewrite <- app_assoc |]);
      (split; [apply Forall_cons_2; [exact Hget |];
               apply Forall_cons_2; [exact Hput1 | apply Forall_nil_2]
              | unfold count, snippet_request; simpl; lia]).
Qed.

Lemma updateVideoTitle_evolves (fuel : nat) (videoId newTitle : string)
    (currentStats : VideoStats) (s : St) :
  evolves a0 (update_request a0 videoId newTitle) s
    (updateVideoTitle w fuel videoId newTitle currentStats s).2.
Proof.
  assert (HP : forall r, update_request a0 videoId newTitle
                 (EvTokenPost (clientId a0) (clientSecret a0) (refreshToken a0) r))
    by (intros r; repeat split).
  revert s. induction fuel as [| fuel IH]; intros s; [apply evolves_refl |].
  rewrite updateVideoTitle_unfold.
  pose proof (ensureValidAccessToken_evolves
                (update_request a0 videoId newTitle) s HP) as He.
  destruct (ensureValidAccessToken w s) as [[[] | e |] s1]; cbn [fst snd] in *;
    try exact He.
  pose proof (updateVideoTitle_try_evolves videoId newTitle currentStats s1) as Ht.
  destruct (updateVideoTitle_try w videoId newTitle currentStats s1)
    as [[b | error |] s2]; cbn [fst snd] in *;
    try (eapply evolves_trans; eassumption).
  destruct (has_status error 401);
    [| cbn [fst snd]; eapply evolves_trans; eassumption].
  pose proof (refreshAccessToken_evolves
                (update_request a0 videoId newTitle) s2 HP) as Hr.
  destruct (refreshAccessToken w s2) as [[[] | e |] s3]; cbn [fst snd] in *;
    eauto using evolves_trans.
Qed.

End Evolution.

Lemma fitted_length (randomTemplate : string) :
  (String.length (if (String.length randomTemplate <=? 100)%nat
                  then randomTemplate
                  else js_substring randomTemplate 0 97 +:+ "...") <= 100)%nat.
Proof.
  destruct (Nat.leb_spec (String.length randomTemplate) 100) as [Hle | Hgt];
    [exact Hle |].
  rewrite length_app_string. unfold js_substring. simpl.
  rewrite length_prefix by lia. simpl. lia.
Qed.

Lemma update_request_in_batch (a0 : Automator) (videoId newTitle : string)
    (e : event) :
  (String.length newTitle <= 100)%nat ->
  update_request a0 videoId newTitle e -> batch_request a0 e.
Proof.
  intros Hlen. destruct e; simpl; try tauto.
  intros (_ & Htitle). eauto.
Qed.

Section BatchEvolution.

Variable w : World.
Variable a0 : Automator.

Lemma getVideoStats_evolves (videoId : string) (s : St) :
  evolves a0 (batch_request a0) s (getVideoStats w videoId s).2.
Proof.
  intros Hc. rewrite getVideoStats_run. cbv zeta.
  assert (Hget : batch_request a0 (stats_request w s videoId)).
  { unfold stats_request. simpl. now destruct Hc as (-> & _). }
  assert (Hgoal : forall s1,
            same_credentials a0 (this s1) ->
            trace s1 = (trace s ++ [stats_request w s videoId])%list ->
            updatesPerformed (stats (this s1)) = updatesPerformed (stats (this s)) ->
            same_credentials a0 (this s1) /\
            exists tr, trace s1 = (trace s ++ tr)%list /\
                       Forall (batch_request a0) tr /\
                       updatesPerformed (stats (this s1))
                       = updatesPerformed (stats (this s))
                         + Z.of_nat (count acked_put tr)).
  { intros s1 Hc1 Htr Hu. split; [exact Hc1 |].
    exists [stats_request w s videoId]. split; [exact Htr |].
    split; [apply Forall_cons_2; [exact Hget | apply Forall_nil_2] |].
    rewrite Hu. unfold count, stats_request. simpl. lia. }
  destruct (videos_list w (tick s)) as [e | d]; cbn [snd];
    [apply Hgoal; [exact Hc | reflexivity | reflexivity] |].
  destruct (items d) as [[| video rest] |]; cbn [snd];
    try (apply Hgoal; [exact Hc | reflexivity | reflexivity]).
  unfold observed. destruct (_ <? _);
    (apply Hgoal; [exact Hc | reflexivity | reflexivity]).
Qed.

Lemma processVideo_evolves (fuel : nat) (videoId originalTitle strategy : string)
    (s : St) :
  evolves a0 (batch_request a0) s
    (processVideo w fuel videoId originalTitle strategy s).2.
Proof.
  rewrite processVideo_run.
  pose proof (getVideoStats_evolves videoId s) as Hg.
  destruct (getVideoStats w videoId s) as [[st | e |] s1]; cbn [fst snd] in *;
    try exact Hg.
  pose proof (generateDynamicTitle_run w st originalTitle strategy s1) as Hrun.
  destruct (generateDynamicTitle w st originalTitle strategy s1)
    as [[newTitle | e |] s2]; cbn [fst snd] in *.
  - assert (Hs2 : s2 = advance s1 /\ (String.length newTitle <= 100)%nat).
    { destruct (chosen w st originalTitle s1) as [t |]; [| discriminate].
      injection Hrun as -> ->. split; [reflexivity | apply fitted_length]. }
    destruct Hs2 as (-> & Hlen).
    assert (Hg2 : evolves a0 (batch_request a0) s (advance s1))
      by (eapply evolves_trans; [exact Hg | apply evolves_advance]).
    destruct (strict_eq_string newTitle (currentTitle st)); cbn [negb];
      [exact Hg2 |].
    pose proof (updateVideoTitle_evolves w a0 fuel videoId newTitle st
                  (advance s1)) as Hu.
    apply (evolves_weaken a0 _ (batch_request a0)) in Hu;
      [| intros e; now apply update_request_in_batch].
    destruct (updateVideoTitle w fuel videoId newTitle st (advance s1))
      as [[b | e |] s3]; cbn [fst snd] in *;
      eapply evolves_trans; eassumption.
  - destruct (chosen w st originalTitle s1); injection Hrun as _ ->;
      (eapply evolves_trans; [exact Hg | apply evolves_advance]).
  - destruct (chosen w st originalTitle s1); discriminate.
Qed.

Lemma processMultipleVideos_for_evolves (fuel : nat) (videos : list VideoTask)
    (strategy : string) (n i : nat) (results : list ProcessResult) (s : St) :
  (i + n = length videos)%nat ->
  evolves a0 (batch_request a0) s
    (processMultipleVideos_for w fuel videos strategy n i results s).2.
Proof.
  revert i results s. induction n as [| n IH]; intros i results s Hlen;
    [apply evolves_refl |].
  destruct (lookup_lt_is_Some_2 videos i) as [task Htask]; [lia |].
  rewrite (processMultipleVideos_for_step w _ _ _ _ _ _ task) by exact Htask.
  pose proof (processVideo_evolves fuel (videoId task) (originalTitle task)
                strategy s) as Hp.
  destruct (processVideo w fuel (videoId task) (originalTitle task) strategy s)
    as [[result | e |] s1]; cbn [fst snd] in *; try exact Hp.
  eapply evolves_trans; [exact Hp |].
  destruct (Z.of_nat i <? Z.of_nat (length videos) - 1).
  - eapply evolves_trans; [| apply IH; lia].
    intros Hc. split; [exact Hc |]. exists [EvTimeout 2000].
    split; [reflexivity |].
    split; [apply Forall_cons_2; [reflexivity | apply Forall_nil_2] |].
    unfold count. simpl. lia.
  - apply IH. lia.
Qed.

End BatchEvolution.

(** ** The token carried by the writes *)

Lemma bearer_of_snoc (tr : list event) (e : event) (tok0 : option string) :
  bearer_of (tr ++ [e]) tok0 =
  match bearer_of tr tok0 with
  | Some tok => bearer_of [e] tok
  | None => None
  end.
Proof.
  revert tok0. induction tr as [| e' tr IH]; intros tok0.
  - simpl app. cbn [bearer_of]. reflexivity.
  - rewrite <- app_comm_cons.
    destruct e' as [ci cs rt [err | d] | key id part r | ud auth r | ms];
      cbn [bearer_of]; try apply IH.
    destruct tok0 as [t |]; [| reflexivity].
    destruct (String.eqb auth ("Bearer " +:+ t)); [apply IH | reflexivity].
Qed.

Lemma keeps_bearer_refl (s : St) : keeps_bearer s s.
Proof. intros tok0 H. exact H. Qed.

Lemma keeps_bearer_trans (s1 s2 s3 : St) :
  keeps_bearer s1 s2 -> keeps_bearer s2 s3 -> keeps_bearer s1 s3.
Proof. intros H12 H23 tok0 H. apply H23, H12, H. Qed.

Section Bearer.

Variable w : World.

Lemma refreshAccessToken_bearer (s : St) :
  keeps_bearer s (refreshAccessToken w s).2.
Proof.
  rewrite refreshAccessToken_run. intros tok0 H.
  destruct (oauth_token w (tick s)) as [e | d]; cbn [snd];
    unfold interact, refreshed, token_request; cbn [trace this];
    rewrite bearer_of_snoc, H; reflexivity.
Qed.

Lemma ensureValidAccessToken_bearer (s : St) :
  keeps_bearer s (ensureValidAccessToken w s).2.
Proof.
  rewrite ensureValidAccessToken_run.
  destruct (needs_refresh _ _); [| intros tok0 H; exact H].
  apply (refreshAccessToken_bearer (advance s)).
Qed.

(** A token is held when [ensureValidAccessToken] returns. *)
Lemma ensureValidAccessToken_token (s s1 : St) :
  ensureValidAccessToken w s = (Ret tt, s1) ->
  exists t, accessToken (this s1) = Some t.
Proof.
  rewrite ensureValidAccessToken_run.
  destruct (needs_refresh (this s) (Date_now w (tick s))) eqn:Hneed.
  - rewrite refreshAccessToken_run.
    destruct (oauth_token w (tick (advance s))) as [e | d]; [discriminate |].
    intros [= <-]. simpl. eauto.
  - intros [= <-]. simpl. unfold needs_refresh in Hneed.
    destruct (accessToken (this s)) as [t |]; [eauto | discriminate].
Qed.

Lemma updateVideoTitle_try_bearer (videoId newTitle : string)
    (currentStats : VideoStats) (s : St) (t : string) :
  accessToken (this s) = Some t ->
  keeps_bearer s (updateVideoTitle_try w videoId newTitle currentStats s).2.
Proof.
  intros Htok. rewrite updateVideoTitle_try_run. cbv zeta. intros tok0 H.
  unfold snippet_request, write_request, written, interact.
  destruct (videos_list w (tick s)) as [e | d]; cbn [snd trace this tick];
    [now rewrite bearer_of_snoc, H |].
  destruct (items d) as [[| item rest] |]; cbn [snd trace this tick];
    try (now rewrite bearer_of_snoc, H).
  destruct (videos_update w (S (tick s))) as [e | u]; cbn [snd trace this tick];
    rewrite !bearer_of_snoc, H; cbn [bearer_of]; rewrite Htok;
    unfold bearer; cbn [bearer_of]; rewrite String.eqb_refl;
    cbn [accessToken with_stats]; now rewrite ?Htok.
Qed.

Lemma updateVideoTitle_bearer (fuel : nat) (videoId newTitle : string)
    (currentStats : VideoStats) (s : St) :
  keeps_bearer s (updateVideoTitle w fuel videoId newTitle currentStats s).2.
Proof.
  revert s. induction fuel as [| fuel IH]; intros s; [apply keeps_bearer_refl |].
  rewrite updateVideoTitle_unfold.
  pose proof (ensureValidAccessToken_bearer s) as He.
  destruct (ensureValidAccessToken w s) as [[[] | e |] s1] eqn:Hens;
    cbn [fst snd] in *; try exact He.
  destruct (ensureValidAccessToken_token s s1 Hens) as [t Htok].
  pose proof (updateVideoTitle_try_bearer videoId newTitle currentStats s1 t Htok)
    as Ht.
  destruct (updateVideoTitle_try w videoId newTitle currentStats s1)
    as [[b | error |] s2]; cbn [fst snd] in *;
    try (eapply keeps_bearer_trans; eassumption).
  destruct (has_status error 401);
    [| cbn [snd]; eapply keeps_bearer_trans; eassumption].
  pose proof (refreshAccessToken_bearer s2) as Hr.
  destruct (refreshAccessToken w s2) as [[[] | e |] s3]; cbn [fst snd] in *;
    eauto using keeps_bearer_trans.
Qed.

Lemma processVideo_bearer (fuel : nat) (videoId originalTitle strategy : string)
    (s : St) :
  keeps_bearer s (processVideo w fuel videoId originalTitle strategy s).2.
Proof.
  rewrite processVideo_run.
  assert (Hg : keeps_bearer s (getVideoStats w videoId s).2).
  { rewrite getVideoStats_run. cbv zeta. intros tok0 H.
    unfold stats_request, observed, interact.
    destruct (videos_list w (tick s)) as [e | d]; cbn [snd trace this];
      [now rewrite bearer_of_snoc, H |].
    destruct (items d) as [[| video rest] |]; cbn [snd trace this];
      try (now rewrite bearer_of_snoc, H).
    destruct (_ <? _); cbn [trace this]; now rewrite bearer_of_snoc, H. }
  destruct (getVideoStats w videoId s) as [[st | e |] s1]; cbn [fst snd] in *;
    try exact Hg.
  pose proof (generateDynamicTitle_run w st originalTitle strategy s1) as Hrun.
  assert (Hs2 : (generateDynamicTitle w st originalTitle strategy s1).2
                = advance s1).
  { rewrite Hrun. now destruct (chosen w st originalTitle s1). }
  destruct (generateDynamicTitle w st originalTitle strategy s1)
    as [[newTitle | e |] s2]; cbn [fst snd] in *; subst s2; try exact Hg.
  destruct (strict_eq_string newTitle (currentTitle st)); cbn [negb];
    [exact Hg |].
  pose proof (updateVideoTitle_bearer fuel videoId newTitle st (advance s1))
    as Hu.
  assert (Hall : keeps_bearer s
            (updateVideoTitle w fuel videoId newTitle st (advance s1)).2).
  { eapply keeps_bearer_trans; [| exact Hu]. exact Hg. }
  destruct (updateVideoTitle w fuel videoId newTitle st (advance s1))
    as [[b | e |] s3]; exact Hall.
Qed.

Lemma processMultipleVideos_for_bearer (fuel : nat) (videos : list VideoTask)
    (strategy : string) (n i : nat) (results : list ProcessResult) (s : St) :
  (i + n = length videos)%nat ->
  keeps_bearer s
    (processMultipleVideos_for w fuel videos strategy n i results s).2.
Proof.
  revert i results s. induction n as [| n IH]; intros i results s Hlen;
    [apply keeps_bearer_refl |].
  destruct (lookup_lt_is_Some_2 videos i) as [task Htask]; [lia |].
  rewrite (processMultipleVideos_for_step w _ _ _ _ _ _ task) by exact Htask.
  pose proof (processVideo_bearer fuel (videoId task) (originalTitle task)
                strategy s) as Hp.
  destruct (processVideo w fuel (videoId task) (originalTitle task) strategy s)
    as [[result | e |] s1]; cbn [fst snd] in *; try exact Hp.
  eapply keeps_bearer_trans; [exact Hp |].
  destruct (Z.of_nat i <? Z.of_nat (length videos) - 1).
  - eapply keeps_bearer_trans; [| apply IH; lia].
    intros tok0 H. unfold paused. cbn [trace this].
    now rewrite bearer_of_snoc, H.
  - apply IH. lia.
Qed.

End Bearer.

(** ** What a batch adds up to *)

Lemma successful_failed (results : list ProcessResult) :
  (successful results + failed results = length results)%nat.
Proof.
  unfold successful, failed.
  induction results as [| r results IH]; [reflexivity |].
  simpl. destruct (success r); simpl; lia.
Qed.

Section Accounting.

Variable w : World.

Lemma processVideo_accounts (fuel : nat) (videoId originalTitle strategy : string)
    (s s' : St) (res : ProcessResult) :
  processVideo w fuel videoId originalTitle strategy s = (Ret res, s') ->
  updatesPerformed (stats (this s'))
  = updatesPerformed (stats (this s)) + (if title_changed res then 1 else 0) /\
  within_peak (peakEngagement (stats (this s'))) res.
Proof.
  rewrite processVideo_run.
  pose proof (getVideoStats_frame w videoId s) as (_ & _ & _ & Hgu & _ & Hgp).
  cbv zeta in Hgu, Hgp.
  destruct (getVideoStats w videoId s) as [[st | e |] s1]; cbn [fst snd] in *;
    try (intros [= <- <-]; simpl; split; [lia | exact I]); try discriminate.
  pose proof (generateDynamicTitle_silent w st originalTitle strategy s1)
    as (_ & _ & Hts).
  destruct (generateDynamicTitle w st originalTitle strategy s1)
    as [[newTitle | e |] s2]; cbn [fst snd] in *;
    try (intros [= <- <-]; simpl; split; [rewrite Hts; lia | exact I]);
    try discriminate.
  destruct (strict_eq_string newTitle (currentTitle st)) eqn:Heq.
  - intros [= <- <-]. simpl. rewrite Heq, Hts. simpl. split; lia.
  - pose proof (updateVideoTitle_frame w fuel videoId newTitle st s2)
      as ((_ & _ & Hup) & Hu). cbv zeta in Hup, Hu.
    destruct (updateVideoTitle w fuel videoId newTitle st s2)
      as [[b | e |] s3]; cbn [fst snd] in *; try discriminate.
    + intros [= <- <-]. simpl. rewrite Heq. simpl.
      destruct Hu as (Hu & _). rewrite Hu, Hup, Hts. split; lia.
    + intros [= <- <-]. simpl. rewrite Hu, Hts. split; [lia | exact I].
Qed.

Lemma within_peak_le (p q : Z) (r : ProcessResult) :
  p <= q -> within_peak p r -> within_peak q r.
Proof. intros Hpq. destruct r; simpl; [lia | trivial]. Qed.

Lemma processMultipleVideos_for_accounts (fuel : nat) (videos : list VideoTask)
    (strategy : string) (n i : nat) (results rs : list ProcessResult)
    (s s' : St) :
  (i + n = length videos)%nat ->
  processMultipleVideos_for w fuel videos strategy n i results s = (Ret rs, s') ->
  exists news,
    rs = (results ++ news)%list /\
    length news = n /\
    updatesPerformed (stats (this s'))
    = updatesPerformed (stats (this s)) + Z.of_nat (changed_titles news) /\
    Forall (within_peak (peakEngagement (stats (this s')))) news.
Proof.
  revert i results s. induction n as [| n IH]; intros i results s Hlen.
  - simpl. intros [= <- <-]. exists []. rewrite app_nil_r.
    repeat split; [unfold changed_titles; simpl; lia | apply Forall_nil_2].
  - destruct (lookup_lt_is_Some_2 videos i) as [task Htask]; [lia |].
    rewrite (processMultipleVideos_for_step w _ _ _ _ _ _ task) by exact Htask.
    destruct (processVideo w fuel (videoId task) (originalTitle task) strategy s)
      as [[result | e |] s1] eqn:Hp; try discriminate.
    destruct (processVideo_accounts _ _ _ _ _ _ _ Hp) as (Hu1 & Hpk1).
    set (s2 := if Z.of_nat i <? Z.of_nat (length videos) - 1
               then paused s1 else s1).
    assert (Hs2 : stats (this s2) = stats (this s1))
      by (unfold s2; now destruct (_ <? _)).
    intros Hrun.
    pose proof (processMultipleVideos_for_frame w fuel videos strategy n (S i)
                  (results ++ [result]) s2 ltac:(lia)) as (_ & Hmono & _).
    cbv zeta in Hmono. rewrite Hrun in Hmono. cbn [snd] in Hmono.
    destruct (IH (S i) (results ++ [result])%list s2 ltac:(lia) Hrun)
      as (news & -> & Hn & Hu & Hpk).
    exists (result :: news). split; [now rewrite <- app_assoc |].
    split; [simpl; lia |]. split.
    + rewrite Hu, Hs2, Hu1. unfold changed_titles. simpl.
      destruct (title_changed result); simpl; lia.
    + apply Forall_cons_2; [| exact Hpk].
      eapply within_peak_le; [| exact Hpk1]. rewrite <- Hs2. exact Hmono.
Qed.

End Accounting.

(** ** Further properties: start-up *)

Lemma missing_spec (env : gmap string string) (key : string) :
  In key (missing env) <->
  In key required /\ (env !! key = None \/ env !! key = Some "").
Proof.
  unfold missing. rewrite List.filter_In. unfold falsy_string.
  destruct (env !! key) as [v |].
  - destruct (String.eqb_spec v "") as [-> | Hv]; split; intros [H1 H2];
      split; try assumption; try reflexivity; try discriminate; auto.
    destruct H2 as [H2 | H2]; congruence.
  - split; intros [H1 H2]; auto.
Qed.

(** X1. [loadCredentials] lets the process run exactly when the four
    required variables are set and non-empty; the credentials are then the
    values of the environment, [CHANNEL_ID] may be absent, and the token and
    the run statistics are untouched.  Otherwise the process exits with
    code 1, some required variable being unset or empty. *)
Theorem loadCredentials_fails_fast (env : gmap string string) (a : Automator) :
  match loadCredentials env a with
  | Running a' =>
      (forall key, In key required ->
         exists v, env !! key = Some v /\ v <> "") /\
      youtubeApiKey a' = env !! "YOUTUBE_API_KEY" /\
      clientId a' = env !! "OAUTH_CLIENT_ID" /\
      clientSecret a' = env !! "OAUTH_CLIENT_SECRET" /\
      refreshToken a' = env !! "REFRESH_TOKEN" /\
      channelId a' = env !! "CHANNEL_ID" /\
      accessToken a' = accessToken a /\
      accessTokenExpiry a' = accessTokenExpiry a /\
      stats a' = stats a
  | Exited code =>
      code = 1 /\
      exists key, In key required /\
                  (env !! key = None \/ env !! key = Some "")
  end.
Proof.
  unfold loadCredentials, validateEnvironment.
  destruct (missing env) as [| key ms] eqn:Hmiss; simpl.
  - repeat split. intros key Hkey.
    destruct (env !! key) as [v |] eqn:Hv.
    + exists v. split; [reflexivity |]. intros ->.
      assert (Hin : In key (missing env))
        by (apply missing_spec; split; [exact Hkey | now right]).
      rewrite Hmiss in Hin. destruct Hin.
    + assert (Hin : In key (missing env))
        by (apply missing_spec; split; [exact Hkey | now left]).
      rewrite Hmiss in Hin. destruct Hin.
  - split; [reflexivity |]. exists key. apply missing_spec.
    rewrite Hmiss. now left.
Qed.

Lemma loadCredentials_key (env : gmap string string) (a : Automator) :
  match loadCredentials env a with
  | Running a' => youtubeApiKey a' = env !! "YOUTUBE_API_KEY"
  | Exited _ => True
  end.
Proof.
  unfold loadCredentials. now destruct (validateEnvironment env).
Qed.

Section FirstRequest.

Variable w : World.

Lemma processVideo_first_request (fuel : nat)
    (videoId originalTitle strategy : string) (s : St) :
  exists tr,
    trace (processVideo w fuel videoId originalTitle strategy s).2
    = (trace s ++ stats_request w s videoId :: tr)%list.
Proof.
  rewrite processVideo_run.
  pose proof (getVideoStats_frame w videoId s) as (_ & _ & Hg & _).
  cbv zeta in Hg.
  assert (Hrefl : forall x, same_credentials (this x) (this x))
    by (intros x; repeat split).
  assert (Hext : forall s1 s2,
            trace s1 = (trace s ++ [stats_request w s videoId])%list ->
            evolves (this s1) (fun _ => True) s1 s2 ->
            exists tr, trace s2 = (trace s ++ stats_request w s videoId :: tr)%list).
  { intros s1 s2 H1 H2. destruct (H2 (Hrefl s1)) as (_ & tr & Htr & _).
    exists tr. rewrite Htr, H1. now rewrite <- app_assoc. }
  destruct (getVideoStats w videoId s) as [[st | e |] s1]; cbn [fst snd] in *;
    try (exists []; exact Hg).
  pose proof (generateDynamicTitle_silent w st originalTitle strategy s1)
    as (_ & Ht & _).
  destruct (generateDynamicTitle w st originalTitle strategy s1)
    as [[newTitle | e |] s2]; cbn [fst snd] in *;
    try (exists []; now rewrite Ht).
  destruct (strict_eq_string newTitle (currentTitle st)); cbn [fst snd];
    [exists []; now rewrite Ht |].
  assert (Hu : evolves (this s2) (fun _ => True) s2
                 (updateVideoTitle w fuel videoId newTitle st s2).2).
  { eapply evolves_weaken; [| apply updateVideoTitle_evolves]. trivial. }
  destruct (updateVideoTitle w fuel videoId newTitle st s2) as [[b | e |] s3];
    cbn [fst snd] in *; (apply (Hext s2); [now rewrite Ht | exact Hu]).
Qed.

(** X2. [VIDEO_ID] is not among the variables whose absence stops the
    process: with the credentials present and [VIDEO_ID] unset or empty the
    automator starts, and the first request of its first batch is the
    statistics read of the placeholder id [YOUR_VIDEO_ID_HERE], made with the
    configured API key; the batch, having one task, makes no pause. *)
Theorem unset_video_id_reads_placeholder (fuel : nat)
    (env : gmap string string) (a' : Automator) :
  loadCredentials env new_Automator = Running a' ->
  env !! "VIDEO_ID" = None \/ env !! "VIDEO_ID" = Some "" ->
  let s' := (processMultipleVideos w fuel (config_videos env) "auto"
               (start a')).2 in
  (exists tr,
     trace s' = EvVideosGet (env !! "YOUTUBE_API_KEY") "YOUR_VIDEO_ID_HERE"
                  "statistics,snippet" (videos_list w 0) :: tr) /\
  count is_timeout (trace s') = 0%nat.
Proof.
  intros Hload Hvid. cbv zeta.
  assert (Hkey : youtubeApiKey a' = env !! "YOUTUBE_API_KEY").
  { pose proof (loadCredentials_key env new_Automator) as H.
    rewrite Hload in H. exact H. }
  assert (Hid : or_default (env !! "VIDEO_ID") "YOUR_VIDEO_ID_HERE"
                = "YOUR_VIDEO_ID_HERE")
    by (destruct Hvid as [-> | ->]; reflexivity).
  set (title := or_default (env !! "ORIGINAL_TITLE")
                  "Building Vaultittech: Real-Time Revenue Tracking").
  unfold processMultipleVideos.
  change (length (config_videos env)) with 1%nat.
  rewrite (processMultipleVideos_for_step w fuel (config_videos env) "auto" 0 0 []
             {| videoId := "YOUR_VIDEO_ID_HERE"; originalTitle := title |})
    by (unfold config_videos; now rewrite Hid).
  cbn [videoId originalTitle].
  destruct (processVideo_first_request fuel "YOUR_VIDEO_ID_HERE" title "auto"
              (start a')) as [tr Htr].
  pose proof (processVideo_frame w fuel "YOUR_VIDEO_ID_HERE" title "auto"
                (start a')) as (Hsched & _).
  cbv zeta in Hsched.
  destruct (processVideo w fuel "YOUR_VIDEO_ID_HERE" title "auto" (start a'))
    as [[result | e |] s1]; simpl in *;
    (split; [exists tr; rewrite Htr; unfold stats_request; simpl;
             now rewrite Hkey
            | rewrite count_timeout_schedule, Hsched; reflexivity]).
Qed.

End FirstRequest.

(** ** Further properties: requests of a batch *)

Section BatchRequests.

Variable w : World.

Lemma processMultipleVideos_evolves (fuel : nat) (videos : list VideoTask)
    (strategy : string) (s : St) :
  same_credentials (this s)
    (this (processMultipleVideos w fuel videos strategy s).2) /\
  exists tr,
    trace (processMultipleVideos w fuel videos strategy s).2
    = (trace s ++ tr)%list /\
    Forall (batch_request (this s)) tr /\
    updatesPerformed (stats (this (processMultipleVideos w fuel videos strategy s).2))
    = updatesPerformed (stats (this s)) + Z.of_nat (count acked_put tr).
Proof.
  apply (processMultipleVideos_for_evolves w (this s) fuel videos strategy
           (length videos) 0 [] s eq_refl).
  repeat split.
Qed.

(** X3. No method of a batch changes the credentials, and every token
    request and every read of a batch carries them: the client id, client
    secret and refresh token go to the token endpoint, the API key to the
    videos read endpoint, whatever the outcome of the batch. *)
Theorem processMultipleVideos_keeps_credentials (fuel : nat)
    (videos : list VideoTask) (strategy : string) (s : St) :
  let s' := (processMultipleVideos w fuel videos strategy s).2 in
  youtubeApiKey (this s') = youtubeApiKey (this s) /\
  clientId (this s') = clientId (this s) /\
  clientSecret (this s') = clientSecret (this s) /\
  refreshToken (this s') = refreshToken (this s) /\
  channelId (this s') = channelId (this s) /\
  exists tr,
    trace s' = (trace s ++ tr)%list /\
    Forall (carries_credentials (this s)) tr.
Proof.
  cbv zeta.
  destruct (processMultipleVideos_evolves fuel videos strategy s)
    as ((H1 & H2 & H3 & H4 & H5) & tr & Htr & HP & _).
  repeat split; try assumption.
  exists tr. split; [exact Htr |].
  eapply Forall_impl; [exact HP |].
  intros [] H; simpl in *; tauto.
Qed.

(** X4. Whatever a batch does, [updatesPerformed] grows by exactly the number
    of writes the platform acknowledged during the batch: a rejected write,
    a skipped video and a failed video count for nothing. *)
Theorem processMultipleVideos_counts_acknowledged_writes (fuel : nat)
    (videos : list VideoTask) (strategy : string) (s : St) :
  let s' := (processMultipleVideos w fuel videos strategy s).2 in
  exists tr,
    trace s' = (trace s ++ tr)%list /\
    updatesPerformed (stats (this s'))
    = updatesPerformed (stats (this s)) + Z.of_nat (count acked_put tr).
Proof.
  cbv zeta.
  destruct (processMultipleVideos_evolves fuel videos strategy s)
    as (_ & tr & Htr & _ & Hu).
  exists tr. split; assumption.
Qed.

(** X5. Every write a batch sends, acknowledged or not, first attempt or
    retry, carries a title of at most 100 characters. *)
Theorem processMultipleVideos_writes_fit (fuel : nat)
    (videos : list VideoTask) (strategy : string) (s : St) :
  let s' := (processMultipleVideos w fuel videos strategy s).2 in
  exists tr,
    trace s' = (trace s ++ tr)%list /\
    Forall title_fits tr.
Proof.
  cbv zeta.
  destruct (processMultipleVideos_evolves fuel videos strategy s)
    as (_ & tr & Htr & HP & _).
  exists tr. split; [exact Htr |].
  eapply Forall_impl; [exact HP |].
  intros [] H; simpl in *; tauto.
Qed.

(** X6. When the statistics read fails, by an error of the transport or of
    the platform or because no item came back, [processVideo] reports the
    failure with the error's message (for no item, the message naming the
    video id) and does nothing else: that read is the only request, no token
    is asked for, nothing is written and the automator is unchanged. *)
Theorem processVideo_failed_read (fuel : nat)
    (videoId originalTitle strategy : string) (s : St) (e : js_error) :
  (getVideoStats w videoId s).1 = Throw e ->
  processVideo w fuel videoId originalTitle strategy s
  = (Ret (Failed videoId (message e)), interact s (stats_request w s videoId)) /\
  (videos_list w (tick s) = inl e \/
   message e = "Video with ID " +:+ videoId +:+ " not found").
Proof.
  rewrite processVideo_run, getVideoStats_run. cbv zeta.
  destruct (videos_list w (tick s)) as [e' | d]; cbn [fst].
  - intros [= ->]. split; [reflexivity | now left].
  - destruct (items d) as [[| video rest] |]; cbn [fst]; try discriminate;
      intros [= <-]; (split; [reflexivity | now right]).
Qed.

End BatchRequests.

(** ** Further properties: the update executor *)

Section UpdateEdges.

Variable w : World.

(** X7. When the token must be refreshed before the update and the token
    endpoint refuses, [updateVideoTitle] throws that error at once, whatever
    its status (a 401 included): the token request is the only request, the
    videos endpoints are not contacted and nothing is retried. *)
Theorem updateVideoTitle_refresh_refused (fuel : nat)
    (videoId newTitle : string) (currentStats : VideoStats) (s : St)
    (e : js_error) :
  needs_refresh (this s) (Date_now w (tick s)) = true ->
  oauth_token w (S (tick s)) = inl e ->
  updateVideoTitle w (S fuel) videoId newTitle currentStats s
  = (Throw e, interact (advance s) (token_request s (inl e))) /\
  trace (updateVideoTitle w (S fuel) videoId newTitle currentStats s).2
  = (trace s ++ [token_request s (inl e)])%list.
Proof.
  intros Hneed Htok.
  rewrite updateVideoTitle_unfold, ensureValidAccessToken_run, Hneed,
    refreshAccessToken_run.
  cbn [advance tick]. rewrite Htok. split; reflexivity.
Qed.

(** X8. When the re-fetch before the write returns no item, the update
    throws the error naming the video without writing and without retrying:
    the re-fetch is the last request. *)
Theorem updateVideoTitle_video_gone (fuel : nat)
    (videoId newTitle : string) (currentStats : VideoStats) (s s1 : St)
    (d : list_data) :
  ensureValidAccessToken w s = (Ret tt, s1) ->
  videos_list w (tick s1) = inr d ->
  items d = None \/ items d = Some [] ->
  updateVideoTitle w (S fuel) videoId newTitle currentStats s
  = (Throw (Error ("Video " +:+ videoId +:+ " not found for title update")),
     interact s1 (snippet_request w s1 videoId)) /\
  count is_put (trace (interact s1 (snippet_request w s1 videoId)))
  = count is_put (trace s1).
Proof.
  intros Hens Hget Hitems.
  rewrite updateVideoTitle_unfold, Hens, updateVideoTitle_try_run. cbv zeta.
  rewrite Hget. split.
  - destruct Hitems as [-> | ->]; reflexivity.
  - unfold interact, snippet_request. cbn [trace].
    rewrite count_app. unfold count. simpl. lia.
Qed.

Lemma ensureValidAccessToken_counts (s : St) :
  count is_put (trace (ensureValidAccessToken w s).2) = count is_put (trace s) /\
  (count is_token_post (trace (ensureValidAccessToken w s).2)
   <= S (count is_token_post (trace s)))%nat.
Proof.
  rewrite ensureValidAccessToken_run.
  destruct (needs_refresh _ _); [| simpl; split; lia].
  rewrite refreshAccessToken_run.
  destruct (oauth_token w (tick (advance s))); simpl;
    rewrite !count_app; unfold count; simpl; split; lia.
Qed.

Lemma updateVideoTitle_try_counts (videoId newTitle : string)
    (currentStats : VideoStats) (s : St) :
  (count is_put (trace (updateVideoTitle_try w videoId newTitle currentStats s).2)
   <= S (count is_put (trace s)))%nat /\
  count is_token_post
    (trace (updateVideoTitle_try w videoId newTitle currentStats s).2)
  = count is_token_post (trace s).
Proof.
  rewrite updateVideoTitle_try_run. cbv zeta.
  unfold snippet_request, write_request, written, interact.
  destruct (videos_list w (tick s)) as [e | d]; cbn [snd trace tick];
    [rewrite !count_app; unfold count; simpl; split; lia |].
  destruct (items d) as [[| item rest] |]; cbn [snd trace tick];
    try (rewrite !count_app; unfold count; simpl; split; lia).
  destruct (videos_update w (S (tick s))); cbn [snd trace tick];
    rewrite !count_app; unfold count; simpl; split; lia.
Qed.

(** X9. When the videos endpoints never answer 401, [updateVideoTitle] makes
    a single attempt: it settles (returns or throws) at the first one, sends
    at most one write and at most one token request. *)
Theorem updateVideoTitle_single_attempt (fuel : nat)
    (videoId newTitle : string) (currentStats : VideoStats) (s : St) :
  auth_settles w 0 ->
  let r := updateVideoTitle w (S fuel) videoId newTitle currentStats s in
  r = updateVideoTitle w 1 videoId newTitle currentStats s /\
  r.1 <> Pending /\
  (count is_put (trace r.2) <= S (count is_put (trace s)))%nat /\
  (count is_token_post (trace r.2) <= S (count is_token_post (trace s)))%nat.
Proof.
  intros Hset. cbv zeta. rewrite !updateVideoTitle_unfold.
  pose proof (ensureValidAccessToken_counts s) as (He1 & He2).
  pose proof (ensureValidAccessToken_not_pending w s) as Hnp.
  destruct (ensureValidAccessToken w s) as [[[] | e |] s1]; cbn [fst snd] in *;
    try (repeat split; try discriminate; lia);
    [| now destruct Hnp].
  pose proof (updateVideoTitle_try_counts videoId newTitle currentStats s1)
    as (Ht1 & Ht2).
  pose proof (updateVideoTitle_try_not_pending w videoId newTitle currentStats s1)
    as Hnp2.
  destruct (updateVideoTitle_try w videoId newTitle currentStats s1)
    as [[b | error |] s2] eqn:Htry; cbn [fst snd] in *;
    try (repeat split; try discriminate; lia);
    [| now destruct Hnp2].
  destruct (has_status error 401) eqn:H401.
  - pose proof (updateVideoTitle_try_unauthorized w 0 Hset _ _ _ _ _ _ Htry H401).
    lia.
  - cbn [fst snd]. repeat split; try discriminate; lia.
Qed.

End UpdateEdges.

(** ** Further properties: tokens *)

Lemma refreshAccessToken_posts (w : World) (s : St) :
  count is_token_post (trace (refreshAccessToken w s).2)
  = S (count is_token_post (trace s)).
Proof.
  rewrite refreshAccessToken_run.
  assert (H : forall ev, is_token_post ev = true ->
            count is_token_post (trace s ++ [ev]) = S (count is_token_post (trace s))).
  { intros ev Hev. rewrite count_app. unfold count at 2. simpl. rewrite Hev.
    simpl. lia. }
  destruct (oauth_token w (tick s)); cbn [snd]; apply H; reflexivity.
Qed.

Section TokenUse.

Variable w : World.

(** X10. Along a batch every write carries, as [Bearer] token, the value of
    [access_token] in the latest successful reply of the token endpoint (or
    the token stored when the batch started, if no reply came since), and
    that value is [accessToken] at the end; [accessToken] is therefore never
    [null] at a write.  The value is sent as received: an empty string, if
    granted, is sent as the header [Bearer ] followed by nothing. *)
Theorem processMultipleVideos_bearer (fuel : nat) (videos : list VideoTask)
    (strategy : string) (s : St) (tok0 : option string) :
  bearer_of (trace s) tok0 = Some (accessToken (this s)) ->
  bearer_of (trace (processMultipleVideos w fuel videos strategy s).2) tok0
  = Some (accessToken (this (processMultipleVideos w fuel videos strategy s).2)).
Proof.
  apply (processMultipleVideos_for_bearer w fuel videos strategy
           (length videos) 0 [] s eq_refl).
Qed.

(** X11. After a successful refresh, the next [ensureValidAccessToken] asks
    for no new token exactly when the granted token is non-empty, its expiry
    is non-zero and at least 300000 ms of its lifetime remain on the clock.
    A token granted for less than 300 seconds is therefore never reused when
    the clock does not go back: every call refreshes again. *)
Theorem token_reused_while_fresh (s : St) (d : token_data) :
  oauth_token w (tick s) = inr d ->
  let s1 := refreshed w s d in
  let granted := Date_now w (S (tick s)) in
  let later := Date_now w (tick s1) in
  let posts (x : St) := count is_token_post (trace x) in
  refreshAccessToken w s = (Ret tt, s1) /\
  (posts (ensureValidAccessToken w s1).2 = posts s1 <->
   access_token d <> "" /\ granted + expires_in d * 1000 <> 0 /\
   300000 <= expires_in d * 1000 - (later - granted)) /\
  (expires_in d < 300 -> granted <= later ->
   posts (ensureValidAccessToken w s1).2 = S (posts s1)).
Proof.
  intros Hgrant. cbv zeta.
  split; [now rewrite refreshAccessToken_run, Hgrant |].
  rewrite ensureValidAccessToken_run.
  pose proof (refreshAccessToken_posts w (advance (refreshed w s d))) as Hposts.
  change (trace (advance (refreshed w s d))) with (trace (refreshed w s d))
    in Hposts.
  assert (Hb : needs_refresh (this (refreshed w s d))
                 (Date_now w (tick (refreshed w s d))) = false <->
               access_token d <> "" /\
               Date_now w (S (tick s)) + expires_in d * 1000 <> 0 /\
               300000 <= expires_in d * 1000
                         - (Date_now w (tick (refreshed w s d))
                            - Date_now w (S (tick s)))).
  { unfold needs_refresh, falsy_string, falsy_number.
    cbn [refreshed this with_token accessToken accessTokenExpiry tick].
    destruct (String.eqb_spec (access_token d) "") as [Htok | Htok];
      destruct (Z.eqb_spec (Date_now w (S (tick s)) + expires_in d * 1000) 0)
        as [Hexp | Hexp];
      destruct (Z.ltb_spec (Date_now w (S (tick s)) + expires_in d * 1000
                            - Date_now w (S (S (tick s)))) 300000) as [Hlt | Hlt];
      cbn [orb]; split; try discriminate;
      try (intros (H1 & H2 & H3); first [contradiction | lia]).
    intros _. repeat split; [assumption | assumption | lia]. }
  destruct (needs_refresh (this (refreshed w s d))
              (Date_now w (tick (refreshed w s d)))) eqn:Hneed.
  - rewrite Hposts. split.
    + split; [lia |]. intros Hc. apply Hb in Hc. discriminate.
    + reflexivity.
  - cbn [snd advance trace]. split.
    + split; [intros _; now apply Hb | reflexivity].
    + intros Hshort Hclock.
      destruct (proj1 Hb eq_refl) as (_ & _ & Hleft). lia.
Qed.

End TokenUse.

(** ** Further properties: rendering and statistics *)

Lemma app_string_assoc (a b c : string) : (a +:+ b) +:+ c = a +:+ b +:+ c.
Proof.
  induction a as [| ch a IH]; [reflexivity |].
  change (String ch ((a +:+ b) +:+ c) = String ch (a +:+ b +:+ c)).
  now rewrite IH.
Qed.

Lemma contains_after (pre t x : string) : contains t x -> contains (pre +:+ t) x.
Proof.
  intros (p & q & ->). exists (pre +:+ p), q. now rewrite app_string_assoc.
Qed.

Lemma contains_head (x post : string) : contains (x +:+ post) x.
Proof. exists "", post. reflexivity. Qed.

Lemma app_string_nil_r (x : string) : x +:+ "" = x.
Proof.
  induction x as [| ch x IH]; [reflexivity |].
  change (String ch (x +:+ "") = String ch x). now rewrite IH.
Qed.

Lemma contains_last (x : string) : contains x x.
Proof. exists "", "". change (x = x +:+ ""). now rewrite app_string_nil_r. Qed.

#[local] Hint Resolve contains_after contains_head contains_last : automator.

Lemma ratio_nonneg (a b : Z) :
  0 <= a -> 0 < b -> (0 <= inject_Z a / inject_Z b)%Q.
Proof.
  intros Ha Hb. apply Qle_shift_div_l.
  - change 0%Q with (inject_Z 0). now rewrite <- Zlt_Qlt.
  - rewrite Qmult_0_l. change 0%Q with (inject_Z 0). now rewrite <- Zle_Qle.
Qed.

Section Rendering.

Variable w : World.

Lemma detailed_contains (st : VideoStats) (originalTitle t : string) :
  In t (detailed w st originalTitle) ->
  contains t originalTitle /\
  contains t (toLocaleString w (views st)) /\
  contains t (toLocaleString w (likes st)) /\
  contains t (toLocaleString w (comments st)).
Proof.
  unfold detailed. cbv zeta.
  intros [<- | [<- | [<- | []]]]; repeat split; auto 20 with automator.
Qed.

(** X12. A title that did not need truncating contains the original title
    and the formatted numbers of views, likes and comments, whichever of the
    three phrasings was drawn. *)
Theorem generateDynamicTitle_mentions_counts (st : VideoStats)
    (originalTitle strategy : string) (s : St) :
  exists randomTemplate title,
    chosen w st originalTitle s = Some randomTemplate /\
    (generateDynamicTitle w st originalTitle strategy s).1 = Ret title /\
    ((String.length randomTemplate <= 100)%nat ->
       contains title originalTitle /\
       contains title (toLocaleString w (views st)) /\
       contains title (toLocaleString w (likes st)) /\
       contains title (toLocaleString w (comments st))).
Proof.
  destruct (chosen_detailed w st originalTitle s) as (t & Ht & Hin).
  rewrite generateDynamicTitle_run, Ht.
  eexists t, _. split; [reflexivity |]. split; [reflexivity |].
  intros Hle. apply Nat.leb_le in Hle. rewrite Hle.
  now apply detailed_contains.
Qed.

(** X13. The [strategy] argument has no effect: two batches that differ only
    in it return the same results and leave the same state and trace. *)
Theorem processMultipleVideos_ignores_strategy (fuel : nat)
    (videos : list VideoTask) (strategy strategy' : string) (s : St) :
  processMultipleVideos w fuel videos strategy s
  = processMultipleVideos w fuel videos strategy' s.
Proof.
  unfold processMultipleVideos.
  generalize (@nil ProcessResult) as results. generalize 0%nat as i.
  revert s. induction (length videos) as [| n IH]; intros s i results;
    [reflexivity |].
  cbn [processMultipleVideos_for].
  destruct (videos !! i) as [task |]; [| reflexivity].
  unfold bind at 1 3.
  change (processVideo w fuel (videoId task) (originalTitle task) strategy' s)
    with (processVideo w fuel (videoId task) (originalTitle task) strategy s).
  destruct (processVideo w fuel (videoId task) (originalTitle task) strategy s)
    as [[result | e |] s1]; try reflexivity.
  unfold bind.
  destruct (Z.of_nat i <? Z.of_nat (length videos) - 1); cbn [timeout ret];
    apply IH.
Qed.

(** X14. The statistics record is always well formed: the three counts are
    non-negative and both ratios are finite and non-negative, whatever
    fields the platform left out.  An absent [viewCount] gives zero views
    and zero ratios; an absent [likeCount] or [commentCount] counts as zero;
    an absent title reads as [undefined]. *)
Theorem video_stats_well_formed (video : video_item) :
  let st := video_stats video in
  0 <= views st /\ 0 <= likes st /\ 0 <= comments st /\
  (exists q, likeRatio st = Some q /\ (0 <= q)%Q) /\
  (exists q, commentRatio st = Some q /\ (0 <= q)%Q) /\
  (viewCount (statistics video) = None ->
     views st = 0 /\ likeRatio st = Some 0%Q /\ commentRatio st = Some 0%Q) /\
  (likeCount (statistics video) = None ->
     likes st = 0 /\ exists q, likeRatio st = Some q /\ (q == 0)%Q) /\
  (commentCount (statistics video) = None ->
     comments st = 0 /\ exists q, commentRatio st = Some q /\ (q == 0)%Q) /\
  (snippet video !! "title" = None -> currentTitle st = JUndefined).
Proof.
  cbv zeta.
  assert (Hcount : forall f : count_field, 0 <= or_zero (parseInt f))
    by (intros [n |]; simpl; lia).
  assert (Hratio : forall f : count_field,
            exists q,
              (if gt_zero (viewCount (statistics video))
               then js_div (or_zero (parseInt f))
                           (parseInt (viewCount (statistics video)))
               else Some 0%Q) = Some q /\
              (0 <= q)%Q /\ (f = None -> (q == 0)%Q)).
  { intros f. destruct (viewCount (statistics video)) as [n |]; simpl;
      [| exists 0%Q; split; [reflexivity |];
         split; [apply Qle_refl | intros _; reflexivity]].
    destruct (N.ltb_spec 0 n) as [Hn | Hn];
      [| exists 0%Q; split; [reflexivity |];
         split; [apply Qle_refl | intros _; reflexivity]].
    destruct (Z.eqb_spec (Z.of_N n) 0) as [Hz | Hz]; [lia |].
    eexists. split; [reflexivity |]. split.
    - apply ratio_nonneg; [apply Hcount | lia].
    - intros ->. simpl. unfold Qdiv. now rewrite Qmult_0_l. }
  destruct (Hratio (likeCount (statistics video))) as (ql & Hl1 & Hl2 & Hl3).
  destruct (Hratio (commentCount (statistics video))) as (qc & Hc1 & Hc2 & Hc3).
  simpl. split; [apply Hcount |]. split; [apply Hcount |].
  split; [apply Hcount |]. split; [eauto |]. split; [eauto |].
  split; [intros Hv; rewrite Hv; repeat split |].
  split; [intros Hl; rewrite Hl in *; split; [reflexivity | eauto] |].
  split; [intros Hk; rewrite Hk in *; split; [reflexivity | eauto] |].
  intros Ht. unfold prop. now rewrite Ht.
Qed.

End Rendering.

(** ** Further properties: totals of a batch and the report *)

Lemma changed_titles_le_successful (results : list ProcessResult) :
  (changed_titles results <= successful results)%nat.
Proof.
  unfold changed_titles, successful.
  induction results as [| r results IH]; [reflexivity |].
  destruct r; simpl; [destruct (negb _); simpl; lia | exact IH].
Qed.

Section Totals.

Variable w : World.

(** X15. When a batch returns, the successes and failures it logs add up to
    the number of tasks, and [updatesPerformed] has grown by the number of
    results whose new title differs from the old one, which is at most the
    number of successes: a success whose title was already in place costs no
    write. *)
Theorem processMultipleVideos_totals (fuel : nat) (videos : list VideoTask)
    (strategy : string) (s s' : St) (rs : list ProcessResult) :
  processMultipleVideos w fuel videos strategy s = (Ret rs, s') ->
  (successful rs + failed rs = length videos)%nat /\
  updatesPerformed (stats (this s'))
  = updatesPerformed (stats (this s)) + Z.of_nat (changed_titles rs) /\
  (changed_titles rs <= successful rs)%nat.
Proof.
  intros Hrun.
  destruct (processMultipleVideos_for_accounts w fuel videos strategy
              (length videos) 0 [] rs s s' eq_refl Hrun)
    as (news & -> & Hn & Hu & _).
  cbn [app]. rewrite successful_failed, Hn.
  repeat split; [exact Hu | apply changed_titles_le_successful].
Qed.

(** X16. When a batch returns, [peakEngagement] is at least the engagement
    ([likes + comments]) of the statistics in every successful result. *)
Theorem processMultipleVideos_peak_covers_results (fuel : nat)
    (videos : list VideoTask) (strategy : string) (s s' : St)
    (rs : list ProcessResult) :
  processMultipleVideos w fuel videos strategy s = (Ret rs, s') ->
  Forall (within_peak (peakEngagement (stats (this s')))) rs.
Proof.
  intros Hrun.
  destruct (processMultipleVideos_for_accounts w fuel videos strategy
              (length videos) 0 [] rs s s' eq_refl Hrun)
    as (news & -> & _ & _ & Hpk).
  exact Hpk.
Qed.

(** X17. [getPerformanceReport] only reads: taken after a batch that a new
    automator ran, it leaves the automator and the trace as they are, and
    its [totalUpdates] is the number of writes the platform acknowledged, its
    [peakEngagement] is not below the initial one, and its [nextUpdate] is
    rendered from the clock plus 300000 ms. *)
Theorem getPerformanceReport_after_batch (h : Host) (fuel : nat)
    (videos : list VideoTask) (strategy : string) (a : Automator) :
  let r := processMultipleVideos w fuel videos strategy (start a) in
  let rep := getPerformanceReport w h r.2 in
  exists report,
    rep.1 = Ret report /\
    this rep.2 = this r.2 /\
    trace rep.2 = trace r.2 /\
    totalUpdates report
    = updatesPerformed (stats a) + Z.of_nat (count acked_put (trace r.2)) /\
    peakEngagement (stats a) <= reportedPeakEngagement report /\
    reportedLastUpdate report = lastUpdate (stats (this r.2)) /\
    uptime report = process_uptime h (tick r.2) /\
    nextUpdate report
    = Date_toLocaleString h (Date_now w (S (tick r.2)) + 300000).
Proof.
  cbv zeta.
  destruct (processMultipleVideos_for_evolves w a fuel videos strategy
              (length videos) 0 [] (start a) eq_refl)
    as (_ & tr & Htr & _ & Hu); [repeat split |].
  fold (processMultipleVideos w fuel videos strategy) in Htr, Hu.
  destruct (processMultipleVideos_for_frame w fuel videos strategy
              (length videos) 0 [] (start a) eq_refl) as (_ & Hpk & _).
  fold (processMultipleVideos w fuel videos strategy) in Hpk.
  simpl in Htr, Hu, Hpk.
  eexists. split; [reflexivity |]. simpl.
  rewrite Htr. repeat split; assumption.
Qed.

End Totals.

(** ** Concrete runs of the further properties *)

Lemma unset_video_id_reads_placeholder_witness :
  let a' := {| youtubeApiKey := Some "AIza-key";
               clientId := Some "client.apps.googleusercontent.com";
               clientSecret := Some "secret";
               refreshToken := Some "1//refresh";
               channelId := None;
               accessToken := None; accessTokenExpiry := None;
               stats := stats new_Automator |} in
  let s' := (processMultipleVideos (demo_world 0) 1 (config_videos demo_env)
               "auto" (start a')).2 in
  loadCredentials demo_env new_Automator = Running a' /\
  demo_env !! "VIDEO_ID" = None /\
  (exists tr,
     trace s' = EvVideosGet (demo_env !! "YOUTUBE_API_KEY") "YOUR_VIDEO_ID_HERE"
                  "statistics,snippet" (videos_list (demo_world 0) 0) :: tr) /\
  count is_timeout (trace s') = 0%nat.
Proof.
  cbv zeta.
  assert (H1 : loadCredentials demo_env new_Automator
               = Running {| youtubeApiKey := Some "AIza-key";
                            clientId := Some "client.apps.googleusercontent.com";
                            clientSecret := Some "secret";
                            refreshToken := Some "1//refresh";
                            channelId := None;
                            accessToken := None; accessTokenExpiry := None;
                            stats := stats new_Automator |})
    by (vm_compute; reflexivity).
  assert (H2 : demo_env !! "VIDEO_ID" = None) by (vm_compute; reflexivity).
  split; [exact H1 |]. split; [exact H2 |].
  exact (unset_video_id_reads_placeholder (demo_world 0) 1 demo_env _ H1
           (or_introl H2)).
Defined.

Lemma processVideo_failed_read_witness :
  let e := Error "Video with ID vid not found" in
  let s := start new_Automator in
  (getVideoStats empty_world "vid" s).1 = Throw e /\
  processVideo empty_world 3 "vid" "Demo" "auto" s
  = (Ret (Failed "vid" (message e)), interact s (stats_request empty_world s "vid")) /\
  (videos_list empty_world (tick s) = inl e \/
   message e = "Video with ID " +:+ "vid" +:+ " not found").
Proof.
  cbv zeta.
  assert (H : (getVideoStats empty_world "vid" (start new_Automator)).1
              = Throw (Error "Video with ID vid not found"))
    by (vm_compute; reflexivity).
  split; [exact H |].
  exact (processVideo_failed_read empty_world 3 "vid" "Demo" "auto"
           (start new_Automator) _ H).
Defined.

Lemma updateVideoTitle_refresh_refused_witness :
  let s := start new_Automator in
  needs_refresh (this s) (Date_now locked_out_world (tick s)) = true /\
  oauth_token locked_out_world (S (tick s)) = inl unauthorized /\
  has_status unauthorized 401 = true /\
  updateVideoTitle locked_out_world 3 "vid" "New" demo_stats s
  = (Throw unauthorized, interact (advance s) (token_request s (inl unauthorized))) /\
  trace (updateVideoTitle locked_out_world 3 "vid" "New" demo_stats s).2
  = (trace s ++ [token_request s (inl unauthorized)])%list.
Proof.
  cbv zeta. split; [reflexivity |]. split; [reflexivity |].
  split; [reflexivity |].
  exact (updateVideoTitle_refresh_refused locked_out_world 2 "vid" "New"
           demo_stats (start new_Automator) unauthorized eq_refl eq_refl).
Defined.

Lemma updateVideoTitle_video_gone_witness :
  let s := start new_Automator in
  let s1 := (ensureValidAccessToken empty_world s).2 in
  ensureValidAccessToken empty_world s = (Ret tt, s1) /\
  videos_list empty_world (tick s1) = inr {| items := Some [] |} /\
  updateVideoTitle empty_world 3 "vid" "New" demo_stats s
  = (Throw (Error ("Video " +:+ "vid" +:+ " not found for title update")),
     interact s1 (snippet_request empty_world s1 "vid")) /\
  count is_put (trace (interact s1 (snippet_request empty_world s1 "vid")))
  = count is_put (trace s1).
Proof.
  cbv zeta.
  assert (H1 : ensureValidAccessToken empty_world (start new_Automator)
               = (Ret tt, (ensureValidAccessToken empty_world
                             (start new_Automator)).2))
    by (vm_compute; reflexivity).
  split; [exact H1 |]. split; [reflexivity |].
  exact (updateVideoTitle_video_gone empty_world 2 "vid" "New" demo_stats
           _ _ {| items := Some [] |} H1 eq_refl (or_intror eq_refl)).
Defined.

Lemma updateVideoTitle_single_attempt_witness :
  let s := start new_Automator in
  let r := updateVideoTitle (demo_world 0) 5 "vid" "New" demo_stats s in
  auth_settles (demo_world 0) 0 /\
  r = updateVideoTitle (demo_world 0) 1 "vid" "New" demo_stats s /\
  r.1 <> Pending /\
  (count is_put (trace r.2) <= S (count is_put (trace s)))%nat /\
  (count is_token_post (trace r.2) <= S (count is_token_post (trace s)))%nat.
Proof.
  cbv zeta. split; [apply demo_world_settles |].
  exact (updateVideoTitle_single_attempt (demo_world 0) 4 "vid" "New" demo_stats
           (start new_Automator) (demo_world_settles 0)).
Defined.

Lemma processMultipleVideos_bearer_witness :
  let s := start new_Automator in
  let s' := (processMultipleVideos (demo_world 10) 3 two_videos "auto" s).2 in
  bearer_of (trace s) None = Some (accessToken (this s)) /\
  bearer_of (trace s') None = Some (accessToken (this s')).
Proof.
  cbv zeta. split; [reflexivity |].
  exact (processMultipleVideos_bearer (demo_world 10) 3 two_videos "auto"
           (start new_Automator) None eq_refl).
Defined.

Lemma token_reused_while_fresh_witness :
  let w := demo_world 0 in
  let s := start new_Automator in
  let d := {| access_token := "ya29.token"; expires_in := 3600 |} in
  let s1 := refreshed w s d in
  oauth_token w (tick s) = inr d /\
  refreshAccessToken w s = (Ret tt, s1) /\
  (count is_token_post (trace (ensureValidAccessToken w s1).2)
   = count is_token_post (trace s1) <->
   access_token d <> "" /\
   Date_now w (S (tick s)) + expires_in d * 1000 <> 0 /\
   300000 <= expires_in d * 1000
             - (Date_now w (tick s1) - Date_now w (S (tick s)))) /\
  (expires_in d < 300 -> Date_now w (S (tick s)) <= Date_now w (tick s1) ->
   count is_token_post (trace (ensureValidAccessToken w s1).2)
   = S (count is_token_post (trace s1))).
Proof.
  cbv zeta. split; [reflexivity |].
  exact (token_reused_while_fresh (demo_world 0) (start new_Automator)
           {| access_token := "ya29.token"; expires_in := 3600 |} eq_refl).
Defined.

Lemma processMultipleVideos_totals_witness :
  let s := start new_Automator in
  let r := processMultipleVideos (demo_world 0) 1 two_videos "auto" s in
  let rs := match r.1 with Ret rs => rs | _ => [] end in
  r = (Ret rs, r.2) /\
  (successful rs + failed rs = length two_videos)%nat /\
  updatesPerformed (stats (this r.2))
  = updatesPerformed (stats (this s)) + Z.of_nat (changed_titles rs) /\
  (changed_titles rs <= successful rs)%nat.
Proof.
  cbv zeta.
  assert (H : processMultipleVideos (demo_world 0) 1 two_videos "auto"
                (start new_Automator)
              = (Ret match (processMultipleVideos (demo_world 0) 1 two_videos
                              "auto" (start new_Automator)).1 with
                     | Ret rs => rs
                     | _ => []
                     end,
                 (processMultipleVideos (demo_world 0) 1 two_videos "auto"
                    (start new_Automator)).2))
    by (vm_compute; reflexivity).
  split; [exact H |].
  exact (processMultipleVideos_totals (demo_world 0) 1 two_videos "auto" _ _ _ H).
Defined.

Lemma processMultipleVideos_peak_covers_results_witness :
  let s := start new_Automator in
  let r := processMultipleVideos (demo_world 0) 1 two_videos "auto" s in
  let rs := match r.1 with Ret rs => rs | _ => [] end in
  r = (Ret rs, r.2) /\
  Forall (within_peak (peakEngagement (stats (this r.2)))) rs.
Proof.
  cbv zeta.
  assert (H : processMultipleVideos (demo_world 0) 1 two_videos "auto"
                (start new_Automator)
              = (Ret match (processMultipleVideos (demo_world 0) 1 two_videos
                              "auto" (start new_Automator)).1 with
                     | Ret rs => rs
                     | _ => []
                     end,
                 (processMultipleVideos (demo_world 0) 1 two_videos "auto"
                    (start new_Automator)).2))
    by (vm_compute; reflexivity).
  split; [exact H |].
  exact (processMultipleVideos_peak_covers_results (demo_world 0) 1 two_videos
           "auto" _ _ _ H).
Defined.

(** ** A platform that answers 401 for ever *)






(** The access token is sent as granted: an empty one gives the header
    [Bearer ] with nothing after it. *)
Example bearer_may_be_empty :
  let r := processVideo empty_token_world 1 "vidA" "Demo" "auto"
             (start new_Automator) in
  put_headers (trace r.2) = ["Bearer "] /\
  accessToken (this r.2) = Some "" /\
  bearer_of (trace r.2) None = Some (Some "").
Proof. vm_compute. repeat split. Qed.

(** At [Math.random() = 0.6666666666666666] the product with 3 rounds up to
    2, and the third phrasing is drawn. *)
Example floor_mul_rounds :
  floor_mul (fixed_random 6004799503160661 eq_refl) 3 = 2%nat /\
  (6004799503160661 * 3 / 2 ^ 53 = 1)%N.
Proof. vm_compute. split; reflexivity. Qed.
